(** * Game statistics of hanabi-live: pace, pace risk, cards gotten,
      usable clues and double discards.

    Shallow embedding of [packages/client/src/game/rules/stats.ts].
    Counts (scores, deck sizes, player counts, card orders) are the
    integers of [Z]; clue values, which are halved in clue starved
    variants, are the rationals of [Q].  [null] and [undefined] are
    [None]; a thrown [Error] is the [Thrown] outcome. *)

From Stdlib Require Import String ZArith QArith Qround List Bool Lia.
From Stdlib Require Import Sorting.Sorted Sorting.Permutation Lqa.
Import ListNotations.

Local Open Scope Z_scope.

(** ** Values shared by the rules *)

(** [PaceRisk] of [@hanabi/game]. *)
Inductive PaceRisk : Type :=
| Low
| Medium
| High
| Zero.

(** A call either returns a value or throws an [Error] with a message. *)
Inductive outcome (A : Type) : Type :=
| Returned (a : A)
| Thrown (msg : string).

Arguments Returned {A} a.
Arguments Thrown {A} msg.

(** JavaScript array indexing [xs[i]]: [undefined] outside the array. *)
Definition index {A : Type} (xs : list A) (i : Z) : option A :=
  if i <? 0 then None else nth_error xs (Z.to_nat i).

(** ** Pace *)

Module Pace.

(** [getPace]: the number of discards that can happen while still getting
    the maximum score. *)
Definition getPace (score deckSize maxScore endGameLength : Z)
    (gameOver : bool) : option Z :=
  if gameOver then None
  else if deckSize <=? 0 then None
  else
    let adjustedScorePlusDeck := score + deckSize - maxScore in
    Some (adjustedScorePlusDeck + endGameLength).

(** [getPaceRisk]: how risky a discard would be right now.
    [Math.floor(numPlayers / 2)] is the floor division of [Z]. *)
Definition getPaceRisk (currentPace : option Z) (numPlayers : Z) : PaceRisk :=
  match currentPace with
  | None => Low
  | Some currentPace =>
      if currentPace <=? 0 then Zero
      else if currentPace - numPlayers + numPlayers / 2 <? 0 then High
      else if currentPace - numPlayers <? 0 then Medium
      else Low
  end.

(** [getStartingPace]. *)
Definition getStartingPace (deckSize maxScore endGameLength : Z) : Z :=
  endGameLength + deckSize - maxScore.

(** The order of the risks used to compare them: Low < Medium < High < Zero. *)
Definition riskLevel (r : PaceRisk) : Z :=
  match r with
  | Low => 0
  | Medium => 1
  | High => 2
  | Zero => 3
  end.

(** The rules of the pace risk as the specification lists them: each rule
    is a condition and the risk it gives; the first rule whose condition
    holds decides. *)
Definition paceRiskRules (pace : option Z) (n : Z) : list (bool * PaceRisk) :=
  match pace with
  | None => [(true, Low)]
  | Some p =>
      [ (p <=? 0, Zero);
        (p - n + n / 2 <? 0, High);
        (p - n <? 0, Medium) ]
  end.

Fixpoint firstMatch {A : Type} (rules : list (bool * A)) (otherwise : A) : A :=
  match rules with
  | [] => otherwise
  | (true, a) :: _ => a
  | (false, _) :: rest => firstMatch rest otherwise
  end.

(** The bucket of each risk as the specification gives it: the set of
    paces on which that risk is the outcome for [n] players. *)
Definition specBucket (r : PaceRisk) (n p : Z) : Prop :=
  match r with
  | Zero => p <= 0
  | High => 0 < p /\ p - n + n / 2 < 0
  | Medium => 0 < p /\ 0 <= p - n + n / 2 /\ p - n < 0
  | Low => 0 < p /\ 0 <= p - n + n / 2 /\ 0 <= p - n
  end.

End Pace.

(** ** Cards, notes, variants and game states *)

Module Game.

(** Where a card is: in the hand of a player (in the source the location
    is then the player's index, a number), on a play stack, in the discard
    pile, or still in the deck. *)
Inductive CardLocation : Type :=
| InHand (playerIndex : Z)
| OnPlayStack
| InDiscard
| InDeck.

(** [CardState], with the fields that the statistics read.
    Modelled from the spec: the declaration of [CardState] is not among the
    sources; [numPositiveClues] stands for the clue history of the card, on
    which the absent predicate [isCardClued] depends. *)
Record CardState : Type := mkCardState {
  order : Z;
  suitIndex : option Z;
  rank : option Z;
  location : CardLocation;
  isMisplayed : bool;
  possibleCardsFromClues : list (Z * Z);
  numPositiveClues : Z
}.

(** [CardNote], with the flags that the statistics read. *)
Record CardNote : Type := mkCardNote {
  clued : bool;
  finessed : bool;
  unclued : bool;
  knownTrash : bool
}.

(** Modelled from the spec: the direction of a play stack (undecided, up
    or down); the statistics only pass it on to the card rules. *)
Inductive StackDirection : Type :=
| Undecided
| Up
| Down.

Definition PlayStacks : Type := list (list Z).
Definition PlayStackDirections : Type := list StackDirection.
Definition PlayStackStarts : Type := list (option Z).

(** [Variant] of [@hanabi/data], with the fields that the statistics read
    ([Variant] is a reserved word here). *)
Record GameVariant (Suit : Type) : Type := mkVariant {
  suits : list Suit;
  stackSize : Z;
  throwItInAHole : bool
}.

Arguments mkVariant {Suit}.
Arguments suits {Suit}.
Arguments stackSize {Suit}.
Arguments throwItInAHole {Suit}.

Record TurnState : Type := mkTurnState {
  currentPlayerIndex : option Z
}.

Record GameState : Type := mkGameState {
  deck : list CardState;
  hands : list (list Z);
  playStacks : PlayStacks;
  playStackDirections : PlayStackDirections;
  playStackStarts : PlayStackStarts;
  turn : TurnState
}.

(** The rules that [stats.ts] imports from modules that are not among the
    sources ([@hanabi/game], [./card], [./deck]): they are taken as an
    interface, and every theorem holds for each implementation of it. *)
Class Rules (Suit : Type) : Type := {
  isCardClued : CardState -> bool;
  isHandLocked : list Z -> list CardState -> bool;
  isAllCardPossibilitiesTrash :
    CardState -> list CardState -> PlayStacks -> PlayStackDirections ->
    PlayStackStarts -> GameVariant Suit -> bool -> bool;
  isCardNeedsToBePlayed :
    Z -> Z -> list CardState -> PlayStacks -> PlayStackDirections ->
    PlayStackStarts -> GameVariant Suit -> bool;
  getNumCopiesOfCard : Suit -> Z -> GameVariant Suit -> Z;
  getNumDiscardedCopiesOfCard : list CardState -> Z -> Z -> Z
}.

(** Modelled from the spec: [isCardInPlayerHand] of [@hanabi/game] is not
    among the sources; a card is in a player's hand when its location is a
    player's index ([typeof location === "number"], as [stats.ts] itself
    tests it in [getDoubleDiscardCard]). *)
Definition isCardInPlayerHand (cardState : CardState) : bool :=
  match location cardState with
  | InHand _ => true
  | _ => false
  end.

Definition isOnPlayStack (cardState : CardState) : bool :=
  match location cardState with
  | OnPlayStack => true
  | _ => false
  end.

Definition isInDiscard (cardState : CardState) : bool :=
  match location cardState with
  | InDiscard => true
  | _ => false
  end.

(** [a === b] on two values that may be [null]. *)
Definition sameValue (a b : option Z) : bool :=
  match a, b with
  | Some x, Some y => x =? y
  | None, None => true
  | _, _ => false
  end.

End Game.

(** ** Cards gotten, notes and double discards *)

Module Stats.
Import Game.

(** [xs.entries()]: each element with its index. *)
Fixpoint entriesFrom {A : Type} (i : Z) (xs : list A) : list (Z * A) :=
  match xs with
  | [] => []
  | x :: rest => (i, x) :: entriesFrom (i + 1) rest
  end.

Definition entries {A : Type} (xs : list A) : list (Z * A) :=
  entriesFrom 0 xs.

Section WithRules.

Context {Suit : Type} {rules : Rules Suit}.

(** [getCardsGotten]; the loop over the deck is a fold whose state is
    [currentCardsGotten]. *)
Definition getCardsGotten (deck : list CardState) (playStacks : PlayStacks)
    (playStackDirections : PlayStackDirections)
    (playStackStarts : PlayStackStarts) (playing shadowing : bool)
    (maxScore : Z) (variant : GameVariant Suit) : Z :=
  let currentCardsGotten :=
    fold_left
      (fun currentCardsGotten cardState =>
         if isOnPlayStack cardState
            || (isInDiscard cardState
                && isMisplayed cardState
                && throwItInAHole variant
                && (playing || shadowing))
         then currentCardsGotten + 1
         else if isCardInPlayerHand cardState
                 && isCardClued cardState
                 && negb (isAllCardPossibilitiesTrash cardState deck
                            playStacks playStackDirections playStackStarts
                            variant false)
         then currentCardsGotten + 1
         else currentCardsGotten)
      deck 0 in
  if currentCardsGotten >? maxScore then maxScore else currentCardsGotten.

(** [getCardsGottenByNotesAdjustment]; [!note] holds when the note is
    [undefined]. *)
Definition getCardsGottenByNotesAdjustment (notes : list CardNote)
    (order : Z) (cardState : CardState) : Z :=
  match index notes order with
  | None => 0
  | Some note =>
      let isCluedForReal := isCardClued cardState in
      if isCluedForReal && (unclued note || knownTrash note) then -1
      else if isCluedForReal then 0
      else
        let isCluedByNotes :=
          (clued note || finessed note)
          && negb (unclued note) && negb (knownTrash note) in
        if isCluedByNotes then 1 else 0
  end.

(** [getCardsGottenByNotes]: the number of cards that are only gotten by
    notes and are not gotten by real clues. *)
Definition getCardsGottenByNotes (deck : list CardState)
    (playStacks : PlayStacks) (playStackDirections : PlayStackDirections)
    (playStackStarts : PlayStackStarts) (variant : GameVariant Suit)
    (notes : list CardNote) : Z :=
  fold_left
    (fun numCardsGottenByNotes '(i, cardState) =>
       let order := i in
       if isCardInPlayerHand cardState
          && negb (isAllCardPossibilitiesTrash cardState deck playStacks
                     playStackDirections playStackStarts variant false)
       then
         let adjustmentFromThisCard :=
           getCardsGottenByNotesAdjustment notes order cardState in
         numCardsGottenByNotes + adjustmentFromThisCard
       else numCardsGottenByNotes)
    (entries deck) 0.

(** The test of the loop of [getDoubleDiscardCard]: another card with the
    suit and rank of the discarded card, in a player's hand and fully
    filled-in from clues. *)
Definition isKnownCopyOf (cardDiscarded cardInDeck : CardState) : bool :=
  negb (order cardInDeck =? order cardDiscarded)
  && sameValue (suitIndex cardInDeck) (suitIndex cardDiscarded)
  && sameValue (rank cardInDeck) (rank cardDiscarded)
  && isCardInPlayerHand cardInDeck
  && (length (possibleCardsFromClues cardInDeck) =? 1)%nat.

(** [getDoubleDiscardCard].  The remainder [%] is [Z.rem]; with no hands
    at all the source indexes by [NaN] and gets [undefined], and here
    [index] into the empty list is [None] as well. *)
Definition getDoubleDiscardCard (orderOfDiscardedCard : Z)
    (gameState : GameState) (variant : GameVariant Suit) : option Z :=
  match index (deck gameState) orderOfDiscardedCard with
  | None => None
  | Some cardDiscarded =>
      match currentPlayerIndex (turn gameState) with
      | None => None
      | Some currentPlayerIndex =>
          let nextPlayerIndex :=
            Z.rem (currentPlayerIndex + 1)
                  (Z.of_nat (length (hands gameState))) in
          let nextPlayerLocked :=
            match index (hands gameState) nextPlayerIndex with
            | Some hand => isHandLocked hand (deck gameState)
            | None => false
            end in
          if nextPlayerLocked then None
          else
            match suitIndex cardDiscarded, rank cardDiscarded with
            | Some discardedSuitIndex, Some discardedRank =>
                let needsToBePlayed :=
                  isCardNeedsToBePlayed discardedSuitIndex discardedRank
                    (deck gameState) (playStacks gameState)
                    (playStackDirections gameState)
                    (playStackStarts gameState) variant in
                if negb needsToBePlayed then None
                else if existsb (isKnownCopyOf cardDiscarded)
                                (deck gameState)
                then None
                else
                  match index (suits variant) discardedSuitIndex with
                  | None => None
                  | Some suit =>
                      let numCopiesTotal :=
                        getNumCopiesOfCard suit discardedRank variant in
                      let numDiscarded :=
                        getNumDiscardedCopiesOfCard (deck gameState)
                          discardedSuitIndex discardedRank in
                      if numCopiesTotal =? numDiscarded + 1
                      then Some orderOfDiscardedCard
                      else None
                  end
            | _, _ => None
            end
      end
  end.

(** *** The same quantities as the specification words them *)

(** The cards that are already on a play stack. *)
Definition specPlayedCards (deck : list CardState) : list CardState :=
  filter isOnPlayStack deck.

(** The misplayed cards of the discard pile, which count only in
    throw-it-in-a-hole variants and for who is playing or shadowing. *)
Definition specCountedMisplays (deck : list CardState) (playing shadowing : bool)
    (variant : GameVariant Suit) : list CardState :=
  if throwItInAHole variant && (playing || shadowing)
  then filter (fun c => isInDiscard c && isMisplayed c) deck
  else [].

(** The cards in a player's hand that are clued and whose possibilities
    are not all trash. *)
Definition specCluedLiveCards (deck : list CardState) (playStacks : PlayStacks)
    (playStackDirections : PlayStackDirections)
    (playStackStarts : PlayStackStarts) (variant : GameVariant Suit)
    : list CardState :=
  filter
    (fun c =>
       isCardInPlayerHand c && isCardClued c
       && negb (isAllCardPossibilitiesTrash c deck playStacks
                  playStackDirections playStackStarts variant false))
    deck.

(** The cards, with their index, over which the notes are summed: in a
    player's hand, with possibilities that are not all trash. *)
Definition specNotedCards (deck : list CardState) (playStacks : PlayStacks)
    (playStackDirections : PlayStackDirections)
    (playStackStarts : PlayStackStarts) (variant : GameVariant Suit)
    : list (Z * CardState) :=
  filter
    (fun '(_, c) =>
       isCardInPlayerHand c
       && negb (isAllCardPossibilitiesTrash c deck playStacks
                  playStackDirections playStackStarts variant false))
    (entries deck).

(** The delta of one card as the specification words it: -1 for a clued
    card whose note says unclued or known trash, +1 for a card without a
    clue whose note says clued or finessed, 0 otherwise. *)
Definition specNoteDelta (notes : list CardNote) (entry : Z * CardState) : Z :=
  let '(i, c) := entry in
  match index notes i with
  | None => 0
  | Some note =>
      if isCardClued c && (unclued note || knownTrash note) then -1
      else if negb (isCardClued c) && (clued note || finessed note) then 1
      else 0
  end.

(** The delta with the +1 case narrowed: the note must say neither
    unclued nor known trash. *)
Definition notedDelta (notes : list CardNote) (entry : Z * CardState) : Z :=
  let '(i, c) := entry in
  match index notes i with
  | None => 0
  | Some note =>
      if isCardClued c && (unclued note || knownTrash note) then -1
      else if negb (isCardClued c) && (clued note || finessed note)
              && negb (unclued note) && negb (knownTrash note) then 1
      else 0
  end.

Definition sumZ (xs : list Z) : Z := fold_right Z.add 0 xs.

(** The next player's hand exists and is locked. *)
Definition nextHandLocked (gameState : GameState) : Prop :=
  exists current hand,
    currentPlayerIndex (turn gameState) = Some current
    /\ index (hands gameState)
             (Z.rem (current + 1) (Z.of_nat (length (hands gameState))))
       = Some hand
    /\ isHandLocked hand (deck gameState) = true.

(** The double discard situation as the specification words it. *)
Definition doubleDiscardSituation (orderOfDiscardedCard : Z)
    (gameState : GameState) (variant : GameVariant Suit) : Prop :=
  currentPlayerIndex (turn gameState) <> None
  /\ ~ nextHandLocked gameState
  /\ exists cardDiscarded s r suit,
      index (deck gameState) orderOfDiscardedCard = Some cardDiscarded
      /\ suitIndex cardDiscarded = Some s
      /\ rank cardDiscarded = Some r
      /\ isCardNeedsToBePlayed s r (deck gameState) (playStacks gameState)
           (playStackDirections gameState) (playStackStarts gameState)
           variant = true
      /\ (forall other,
             In other (deck gameState) ->
             order other <> order cardDiscarded ->
             suitIndex other = Some s ->
             rank other = Some r ->
             isCardInPlayerHand other = true ->
             length (possibleCardsFromClues other) <> 1%nat)
      /\ index (suits variant) s = Some suit
      /\ getNumCopiesOfCard suit r variant
         = getNumDiscardedCopiesOfCard (deck gameState) s r + 1.

End WithRules.

End Stats.

(** ** Clues still usable *)

Module Clues.
Import Stats.

Definition getMaxDiscardsBeforeFinalRound
    (cardsToPlay deckSize endGameLength : Z) : Z :=
  if cardsToPlay <=? endGameLength + 1 then deckSize - 1
  else if cardsToPlay <=? endGameLength + deckSize
  then endGameLength + deckSize - cardsToPlay
  else 0.

Definition getMaxPlaysDuringFinalRound (cardsToPlay endGameLength : Z) : Z :=
  if cardsToPlay <? endGameLength + 1 then cardsToPlay
  else endGameLength + 1.

Definition getMaxPlays (cardsToPlay deckSize endGameLength : Z) : Z :=
  if cardsToPlay <=? endGameLength + deckSize then cardsToPlay
  else endGameLength + deckSize.

(** [sumArray] of isaacscript-common-ts: the sum of the elements. *)
Definition sumArray (xs : list Z) : Z := fold_left Z.add xs 0.

(** [x < y] on clue values. *)
Definition Qltb (x y : Q) : bool := negb (Qle_bool y x).

(** [xs.sort(compare)]: the elements in the order of the comparator, as an
    insertion sort that keeps the order of elements that compare equal.
    On numbers with [(a, b) => a - b] the outcome does not depend on the
    algorithm: it is the one ascending arrangement of the elements
    (see [sortBy_unique] below). *)
Fixpoint insertBy (compare : Z -> Z -> Z) (x : Z) (xs : list Z) : list Z :=
  match xs with
  | [] => [x]
  | y :: rest =>
      if compare x y <=? 0 then x :: y :: rest
      else y :: insertBy compare x rest
  end.

Definition sortBy (compare : Z -> Z -> Z) (xs : list Z) : list Z :=
  fold_right (insertBy compare) [] xs.

(** The first loop of the suits part: over [scorePerStack.entries()], the
    missing cards of each suit that can still be completed, in the order
    of the pushes. *)
Definition missingCardsPerCompletableSuitOf
    (scorePerStack maxScorePerStack : list Z) (stackSize : Z) : list Z :=
  fold_left
    (fun missingCardsPerCompletableSuit '(suitIndex, stackScore) =>
       match index maxScorePerStack suitIndex with
       | Some stackMaxScore =>
           if (stackMaxScore =? stackSize) && (stackScore <? stackSize)
           then missingCardsPerCompletableSuit
                  ++ [stackMaxScore - stackScore]
           else missingCardsPerCompletableSuit
       | None => missingCardsPerCompletableSuit
       end)
    (entries scorePerStack) [].

(** The second loop: suits are completed one after the other until the
    next one does not fit ([break]); the state is [cardsPlayed] and
    [suitsCompletedBeforeFinalRound]. *)
Fixpoint completeSuits (minPlaysBeforeFinalRound : Z)
    (missingCardsPerCompletableSuit : list Z)
    (cardsPlayed suitsCompletedBeforeFinalRound : Z) : Z :=
  match missingCardsPerCompletableSuit with
  | [] => suitsCompletedBeforeFinalRound
  | missingCardsInSuit :: rest =>
      if cardsPlayed + missingCardsInSuit >? minPlaysBeforeFinalRound
      then suitsCompletedBeforeFinalRound
      else completeSuits minPlaysBeforeFinalRound rest
             (cardsPlayed + missingCardsInSuit)
             (suitsCompletedBeforeFinalRound + 1)
  end.

(** [getCluesStillUsableNotRounded]: the max number of clues that can be
    spent while getting the max possible score from a given game state
    onward. *)
Definition getCluesStillUsableNotRounded (score : Z)
    (scorePerStack maxScorePerStack : list Z)
    (stackSize deckSize endGameLength : Z)
    (discardValue suitValue currentClues : Q) : outcome (option Q) :=
  if negb (length scorePerStack =? length maxScorePerStack)%nat
  then Thrown "Failed to calculate efficiency: scorePerStack must have the same length as maxScorePerStack."%string
  else if Qltb discardValue suitValue
  then Thrown "Cannot calculate efficiency in variants where discarding gives fewer clues than completing suits."%string
  else if deckSize <=? 0 then Returned None
  else
    let maxScore := sumArray maxScorePerStack in
    let missingScore := maxScore - score in
    let maxDiscardsBeforeFinalRound :=
      getMaxDiscardsBeforeFinalRound missingScore deckSize endGameLength in
    let cluesFromDiscards :=
      (inject_Z maxDiscardsBeforeFinalRound * discardValue)%Q in
    let cluesFromSuits :=
      if Qltb 0 suitValue then
        let playsDuringFinalRound :=
          getMaxPlaysDuringFinalRound missingScore endGameLength in
        let minPlaysBeforeFinalRound :=
          getMaxPlays missingScore deckSize endGameLength
          - playsDuringFinalRound in
        let missingCardsPerCompletableSuit :=
          sortBy (fun a b => a - b)
            (missingCardsPerCompletableSuitOf scorePerStack maxScorePerStack
               stackSize) in
        let suitsCompletedBeforeFinalRound :=
          completeSuits minPlaysBeforeFinalRound
            missingCardsPerCompletableSuit 0 0 in
        (inject_Z suitsCompletedBeforeFinalRound * suitValue)%Q
      else 0%Q in
    Returned (Some (cluesFromDiscards + cluesFromSuits + currentClues)%Q).

(** [getCluesStillUsable]: the same, rounded down. *)
Definition getCluesStillUsable (score : Z)
    (scorePerStack maxScorePerStack : list Z)
    (stackSize deckSize endGameLength : Z)
    (discardValue suitValue currentClues : Q) : outcome (option Z) :=
  match getCluesStillUsableNotRounded score scorePerStack maxScorePerStack
          stackSize deckSize endGameLength discardValue suitValue
          currentClues with
  | Thrown msg => Thrown msg
  | Returned None => Returned None
  | Returned (Some result) => Returned (Some (Qfloor result))
  end.

(** *** The same quantities as the specification words them *)

(** The suits that are candidates: their maximum score is the stack size
    and their score is below it; each with the cards it still needs. *)
Definition specCandidates (scorePerStack maxScorePerStack : list Z)
    (stackSize : Z) : list Z :=
  map (fun '(stackScore, stackMaxScore) => stackMaxScore - stackScore)
    (filter
       (fun '(stackScore, stackMaxScore) =>
          (stackMaxScore =? stackSize) && (stackScore <? stackSize))
       (combine scorePerStack maxScorePerStack)).

(** The play budget before the final round. *)
Definition specPlayBudget (missingScore deckSize endGameLength : Z) : Z :=
  getMaxPlays missingScore deckSize endGameLength
  - getMaxPlaysDuringFinalRound missingScore endGameLength.

(** [k] suits are greedily packed into the budget: the first [k] of the
    sorted candidates fit together, and the next one no longer does. *)
Definition greedilyPacked (budget : Z) (sorted : list Z) (k : Z) : Prop :=
  0 <= k <= Z.of_nat (length sorted)
  /\ sumZ (firstn (Z.to_nat k) sorted) <= budget
  /\ (k < Z.of_nat (length sorted) ->
      budget < sumZ (firstn (Z.to_nat k + 1) sorted)).

(** The number of suits completable before the final round is [k]. *)
Definition specSuitsCompletable (scorePerStack maxScorePerStack : list Z)
    (stackSize budget : Z) (k : Z) : Prop :=
  exists sorted,
    Permutation sorted (specCandidates scorePerStack maxScorePerStack stackSize)
    /\ Sorted Z.le sorted
    /\ greedilyPacked budget sorted k.

(** The value of the usable clues as the specification words it: the
    discards before the final round times [discardValue], plus [suitValue]
    times the number of suits completable before the final round, plus
    the current clues. *)
Definition specCluesStillUsable (score : Z)
    (scorePerStack maxScorePerStack : list Z)
    (stackSize deckSize endGameLength : Z)
    (discardValue suitValue currentClues : Q) (value : Q) : Prop :=
  let missingScore := sumArray maxScorePerStack - score in
  exists k,
    specSuitsCompletable scorePerStack maxScorePerStack stackSize
      (specPlayBudget missingScore deckSize endGameLength) k
    /\ (value
        == inject_Z (getMaxDiscardsBeforeFinalRound missingScore deckSize
                       endGameLength) * discardValue
           + suitValue * inject_Z k + currentClues)%Q.

(** The same value with the suits counted only for a positive
    [suitValue]. *)
Definition cluesStillUsableValue (score : Z)
    (scorePerStack maxScorePerStack : list Z)
    (stackSize deckSize endGameLength : Z)
    (discardValue suitValue currentClues : Q) (value : Q) : Prop :=
  let missingScore := sumArray maxScorePerStack - score in
  exists k,
    specSuitsCompletable scorePerStack maxScorePerStack stackSize
      (specPlayBudget missingScore deckSize endGameLength) k
    /\ ((0 < suitValue)%Q ->
        (value
         == inject_Z (getMaxDiscardsBeforeFinalRound missingScore deckSize
                        endGameLength) * discardValue
            + suitValue * inject_Z k + currentClues)%Q)
    /\ ((suitValue <= 0)%Q ->
        (value
         == inject_Z (getMaxDiscardsBeforeFinalRound missingScore deckSize
                        endGameLength) * discardValue
            + currentClues)%Q).

End Clues.

(** ** An implementation of the rules, to run the statistics *)

Module Sample.
Import Game Stats.

(** Modelled from the spec: the card, hand and deck rules are not among
    the sources.  This implementation follows the specification where it
    says enough (a clued card has a positive clue, a locked hand has only
    clued cards, the discarded copies are counted in the deck) and is the
    plain game otherwise; it serves to evaluate the statistics on concrete
    decks, and no theorem above the examples depends on it. *)
Definition isCopyAt (place : CardState -> bool) (s r : Z) (c : CardState)
    : bool :=
  sameValue (suitIndex c) (Some s) && sameValue (rank c) (Some r) && place c.

Definition sampleRules : Rules string := {|
  isCardClued := fun c => 0 <? numPositiveClues c;
  isHandLocked := fun hand deck =>
    forallb
      (fun o =>
         match index deck o with
         | Some c => 0 <? numPositiveClues c
         | None => false
         end)
      hand;
  isAllCardPossibilitiesTrash := fun c deck _ _ _ _ _ =>
    forallb (fun '(s, r) => existsb (isCopyAt isOnPlayStack s r) deck)
      (possibleCardsFromClues c);
  isCardNeedsToBePlayed := fun s r deck _ _ _ _ =>
    negb (existsb (isCopyAt isOnPlayStack s r) deck);
  getNumCopiesOfCard := fun _ r _ =>
    if r =? 1 then 3 else if r =? 5 then 1 else 2;
  getNumDiscardedCopiesOfCard := fun deck s r =>
    Z.of_nat (length (filter (isCopyAt isInDiscard s r) deck))
|}.

Definition noVariant : GameVariant string :=
  mkVariant ["Red"; "Yellow"; "Green"; "Blue"; "Purple"]%string 5 false.

(** A card whose suit and rank are known, with the number of its positive
    clues and the identities still possible from the clues. *)
Definition card (o s r : Z) (where_ : CardLocation) (clues : Z)
    (possible : list (Z * Z)) : CardState :=
  mkCardState o (Some s) (Some r) where_ false possible clues.

(** Two players: three cards are played, two cards in hand are clued and
    live, one card has just been discarded (order 7). *)
Definition sampleDeck : list CardState :=
  [ card 0 0 1 OnPlayStack 0 [(0, 1)];
    card 1 1 1 OnPlayStack 1 [(1, 1)];
    card 2 0 2 OnPlayStack 1 [(0, 2)];
    card 3 2 1 (InHand 0) 1 [(2, 1)];
    card 4 3 4 (InHand 0) 0 [(3, 4); (4, 4)];
    card 5 1 2 (InHand 1) 1 [(0, 2); (1, 2)];
    card 6 0 1 (InHand 1) 1 [(0, 1)];
    card 7 3 3 InDiscard 0 [(3, 3)] ].

Definition sampleState (current : option Z) : GameState :=
  mkGameState sampleDeck [[3; 4]; [5; 6]] [[0; 2]; [1]; []; []; []]
    [Up; Up; Up; Up; Up] [None; None; None; None; None]
    (mkTurnState current).

(** One card in hand without a clue, and a note on it that says both
    clued and known trash. *)
Definition notedDeck : list CardState :=
  [ card 0 0 1 (InHand 0) 0 [(0, 1); (0, 2)] ].

Definition contradictoryNotes : list CardNote :=
  [ mkCardNote true false false true ].

End Sample.

(** ** The start of a game *)

Module Start.
Import Game Stats Clues.

(** What [stats.ts] imports for the start of a game from modules that are
    not among the sources: the clue values of [./clueTokens], the number
    of cards of [./deck], and the constant [MAX_CLUE_NUM] of
    [@hanabi/data].  They are an interface as well. *)
Class StartRules (Suit : Type) : Type := {
  discardValue : GameVariant Suit -> Q;
  suitValue : GameVariant Suit -> Q;
  getTotalCardsInDeck : GameVariant Suit -> Z;
  MAX_CLUE_NUM : Z
}.

(** [newArray] of isaacscript-common-ts: [length] times the value. *)
Definition newArray {A : Type} (length : nat) (value : A) : list A :=
  repeat value length.

Section WithStartRules.

Context {Suit : Type} {startRules : StartRules Suit}.

(** [getStartingDeckSize]. *)
Definition getStartingDeckSize (numPlayers cardsPerHand : Z)
    (variant : GameVariant Suit) : Z :=
  let totalCards := getTotalCardsInDeck variant in
  let initialCardsDrawn := cardsPerHand * numPlayers in
  totalCards - initialCardsDrawn.

(** [getStartingCluesUsable]; [assertNotNull] throws on [null]. *)
Definition getStartingCluesUsable (endGameLength deckSize : Z)
    (variant : GameVariant Suit) : outcome Z :=
  let score := 0 in
  let scorePerStack := newArray (length (suits variant)) 0 in
  let maxScorePerStack :=
    newArray (length (suits variant)) (stackSize variant) in
  let discardValue := discardValue variant in
  let suitValue := suitValue variant in
  match getCluesStillUsable score scorePerStack maxScorePerStack
          (stackSize variant) deckSize endGameLength discardValue suitValue
          (inject_Z MAX_CLUE_NUM) with
  | Thrown msg => Thrown msg
  | Returned None => Thrown "The starting clues usable was null."%string
  | Returned (Some startingClues) => Returned startingClues
  end.

End WithStartRules.

(** An implementation for the examples: a discard and a suit are worth one
    clue (a suit nothing in throw-it-in-a-hole variants), ten cards per
    suit, eight clues. *)
Definition sampleStartRules : StartRules string := {|
  discardValue := fun _ => 1%Q;
  suitValue := fun variant => if throwItInAHole variant then 0%Q else 1%Q;
  getTotalCardsInDeck := fun variant =>
    10 * Z.of_nat (length (suits variant));
  MAX_CLUE_NUM := 8
|}.

(** The cards chosen among the candidates: [chosen] with the [others] is
    an arrangement of all of them. *)
Definition chosenAmong (chosen others candidates : list Z) : Prop :=
  Permutation (chosen ++ others) candidates.

(** A note without any of the four flags. *)
Definition isBlankNote (note : CardNote) : bool :=
  negb (clued note) && negb (finessed note)
  && negb (unclued note) && negb (knownTrash note).

End Start.

(** ** Theorems on pace *)

Module PaceFacts.
Import Pace.

(** C1. [getPace] returns [null] if and only if the game is over or the
    deck is empty ([deckSize <= 0]); otherwise it returns exactly
    [score + deckSize - maxScore + endGameLength]; on score 0, deck 40,
    maximum score 25, end game length 2 and a running game it returns 17. *)
Theorem getPace_spec :
  (forall score deckSize maxScore endGameLength gameOver,
      (getPace score deckSize maxScore endGameLength gameOver = None
       <-> (gameOver = true \/ deckSize <= 0))
      /\ (~ (gameOver = true \/ deckSize <= 0) ->
          getPace score deckSize maxScore endGameLength gameOver
          = Some (score + deckSize - maxScore + endGameLength)))
  /\ getPace 0 40 25 2 false = Some 17.
Proof.
  split; [| reflexivity].
  intros score deckSize maxScore endGameLength gameOver.
  unfold getPace.
  destruct gameOver.
  - split; [tauto |]. intros H. exfalso. apply H. now left.
  - destruct (Z.leb_spec deckSize 0) as [Hle | Hgt].
    + split; [tauto |]. intros H. exfalso. apply H. now right.
    + split; [| reflexivity].
      split; [discriminate |].
      intros [Hover | Hempty]; [discriminate | lia].
Qed.

(** The conditions of [getPaceRisk] read one after the other. *)
Lemma getPaceRisk_cases (p n : Z) :
  (p <= 0 /\ getPaceRisk (Some p) n = Zero)
  \/ (0 < p /\ p - n + n / 2 < 0 /\ getPaceRisk (Some p) n = High)
  \/ (0 < p /\ 0 <= p - n + n / 2 /\ p - n < 0
      /\ getPaceRisk (Some p) n = Medium)
  \/ (0 < p /\ 0 <= p - n + n / 2 /\ 0 <= p - n
      /\ getPaceRisk (Some p) n = Low).
Proof.
  unfold getPaceRisk.
  destruct (Z.leb_spec p 0); [left; split; [assumption | reflexivity] |].
  destruct (Z.ltb_spec (p - n + n / 2) 0);
    [right; left; repeat split; assumption |].
  destruct (Z.ltb_spec (p - n) 0).
  - right; right; left; repeat split; assumption.
  - right; right; right; repeat split; assumption.
Qed.

(** C2. [getPaceRisk] evaluates its conditions in this order and returns
    the first match: a [null] pace gives Low; [pace <= 0] gives Zero;
    [pace - n + floor(n/2) < 0] gives High; [pace - n < 0] gives Medium;
    otherwise Low.  The High check comes before the Medium check: when
    both conditions hold the result is High. *)
Theorem getPaceRisk_first_match :
  (forall pace n,
      getPaceRisk pace n = firstMatch (paceRiskRules pace n) Low)
  /\ (forall n, getPaceRisk None n = Low)
  /\ (forall p n, p <= 0 -> getPaceRisk (Some p) n = Zero)
  /\ (forall p n, 0 < p -> p - n + n / 2 < 0 ->
       getPaceRisk (Some p) n = High)
  /\ (forall p n, 0 < p -> 0 <= p - n + n / 2 -> p - n < 0 ->
       getPaceRisk (Some p) n = Medium)
  /\ (forall p n, 0 < p -> 0 <= p - n + n / 2 -> 0 <= p - n ->
       getPaceRisk (Some p) n = Low)
  /\ (forall p n, 0 < p -> p - n + n / 2 < 0 -> p - n < 0 ->
       getPaceRisk (Some p) n = High).
Proof.
  split.
  { intros [p |] n; [| reflexivity].
    unfold getPaceRisk, paceRiskRules, firstMatch.
    destruct (p <=? 0); [reflexivity |].
    destruct (p - n + n / 2 <? 0); [reflexivity |].
    destruct (p - n <? 0); reflexivity. }
  split; [reflexivity |].
  repeat split; intros p n;
    destruct (getPaceRisk_cases p n) as [C | [C | [C | C]]];
    intros; try tauto; lia.
Qed.

Lemma getPaceRisk_bucket (n p : Z) (r : PaceRisk) :
  getPaceRisk (Some p) n = r <-> specBucket r n p.
Proof.
  destruct (getPaceRisk_cases p n) as [C | [C | [C | C]]];
    split; intros H.
  all: try (subst r; destruct C as (? & C); try destruct C as (? & C);
            try destruct C as (? & C); rewrite C; simpl; lia).
  all: destruct r; simpl in H; try lia; tauto.
Qed.

(** C7. For a fixed number of players the risk never decreases as the pace
    decreases (Low < Medium < High < Zero), and the four buckets partition
    the integer paces: every pace lies in the bucket of the risk returned
    for it (no gap) and in no other bucket (no overlap). *)
Theorem getPaceRisk_monotonic_partition :
  (forall n p q, p <= q ->
      riskLevel (getPaceRisk (Some q) n) <= riskLevel (getPaceRisk (Some p) n))
  /\ (forall n p, specBucket (getPaceRisk (Some p) n) n p)
  /\ (forall n p r r', specBucket r n p -> specBucket r' n p -> r = r').
Proof.
  split; [| split].
  - intros n p q Hpq.
    destruct (getPaceRisk_cases p n) as [C | [C | [C | C]]];
      destruct (getPaceRisk_cases q n) as [D | [D | [D | D]]].
    all: repeat match goal with H : _ /\ _ |- _ => destruct H end.
    all: repeat match goal with H : getPaceRisk _ _ = _ |- _ =>
                                  rewrite H; clear H end.
    all: simpl; lia.
  - intros n p. now apply getPaceRisk_bucket.
  - intros n p r r' Hr Hr'.
    apply getPaceRisk_bucket in Hr, Hr'. congruence.
Qed.

(** C9. With one or two players [getPaceRisk] never returns High: the High
    condition [pace - n + floor(n/2) < 0] has no solution with [pace >= 1],
    so the result is always Zero, Medium or Low. *)
Theorem getPaceRisk_no_high_below_three_players :
  (forall n p, n = 1 \/ n = 2 -> 1 <= p -> ~ (p - n + n / 2 < 0))
  /\ (forall n pace, n = 1 \/ n = 2 -> getPaceRisk pace n <> High)
  /\ (forall n pace, n = 1 \/ n = 2 ->
       getPaceRisk pace n = Zero \/ getPaceRisk pace n = Medium
       \/ getPaceRisk pace n = Low).
Proof.
  assert (Hcond : forall n p, n = 1 \/ n = 2 -> 1 <= p ->
                              ~ (p - n + n / 2 < 0)).
  { intros n p [-> | ->] Hp; cbn; lia. }
  assert (Hres : forall n pace, n = 1 \/ n = 2 ->
             getPaceRisk pace n = Zero \/ getPaceRisk pace n = Medium
             \/ getPaceRisk pace n = Low).
  { intros n [p |] Hn; [| right; right; reflexivity].
    destruct (getPaceRisk_cases p n) as [C | [C | [C | C]]].
    - left; tauto.
    - exfalso. apply (Hcond n p Hn); lia.
    - right; left; tauto.
    - right; right; tauto. }
  split; [exact Hcond |]. split; [| exact Hres].
  intros n pace Hn Hhigh.
  destruct (Hres n pace Hn) as [E | [E | E]]; congruence.
Qed.

End PaceFacts.

(** ** Theorems on the usable clues *)

Module CluesFacts.
Import Stats Clues.

Lemma Qltb_spec (x y : Q) : Qltb x y = true <-> (x < y)%Q.
Proof.
  unfold Qltb. rewrite negb_true_iff.
  split.
  - intros H. apply Qnot_le_lt. intros Hle.
    apply Qle_bool_iff in Hle. congruence.
  - intros H. destruct (Qle_bool y x) eqn:E; [| reflexivity].
    apply Qle_bool_iff in E. exfalso. exact (Qlt_not_le _ _ H E).
Qed.

Lemma Qltb_false (x y : Q) : Qltb x y = false <-> ~ (x < y)%Q.
Proof.
  rewrite <- Qltb_spec. destruct (Qltb x y); split; congruence.
Qed.

(** *** The candidates: the first loop against the filter *)

Lemma index_of_nat {A : Type} (xs : list A) (n : nat) :
  index xs (Z.of_nat n) = nth_error xs n.
Proof.
  unfold index.
  destruct (Z.ltb_spec (Z.of_nat n) 0); [lia |].
  now rewrite Nat2Z.id.
Qed.

Lemma skipn_nth_error {A : Type} (xs : list A) (n : nat) :
  skipn n xs
  = match nth_error xs n with
    | Some x => x :: skipn (S n) xs
    | None => []
    end.
Proof.
  revert xs. induction n as [| n IH]; intros [| x xs]; try reflexivity.
  cbn [nth_error]. rewrite <- IH. reflexivity.
Qed.

Lemma specCandidates_nil_r (scorePerStack : list Z) (stackSize : Z) :
  specCandidates scorePerStack [] stackSize = [].
Proof.
  unfold specCandidates. now rewrite combine_nil.
Qed.

Lemma missingCards_loop (maxScorePerStack : list Z) (stackSize : Z) :
  forall scorePerStack n acc,
    fold_left
      (fun missing '(suitIndex, stackScore) =>
         match index maxScorePerStack suitIndex with
         | Some stackMaxScore =>
             if (stackMaxScore =? stackSize) && (stackScore <? stackSize)
             then missing ++ [stackMaxScore - stackScore]
             else missing
         | None => missing
         end)
      (entriesFrom (Z.of_nat n) scorePerStack) acc
    = acc ++ specCandidates scorePerStack (skipn n maxScorePerStack) stackSize.
Proof.
  induction scorePerStack as [| s rest IH]; intros n acc.
  - cbn. now rewrite app_nil_r.
  - cbn [entriesFrom fold_left].
    replace (Z.of_nat n + 1) with (Z.of_nat (S n)) by lia.
    rewrite IH, index_of_nat, (skipn_nth_error maxScorePerStack n).
    destruct (nth_error maxScorePerStack n) as [m |] eqn:Hm.
    + unfold specCandidates at 2. cbn [combine filter].
      destruct ((m =? stackSize) && (s <? stackSize)).
      * cbn [map]. rewrite <- app_assoc. reflexivity.
      * reflexivity.
    + rewrite specCandidates_nil_r.
      assert (Hout : skipn (S n) maxScorePerStack = []).
      { apply skipn_all2. apply nth_error_None in Hm. lia. }
      rewrite Hout, specCandidates_nil_r. reflexivity.
Qed.

Lemma missingCardsPerCompletableSuitOf_spec
    (scorePerStack maxScorePerStack : list Z) (stackSize : Z) :
  missingCardsPerCompletableSuitOf scorePerStack maxScorePerStack stackSize
  = specCandidates scorePerStack maxScorePerStack stackSize.
Proof.
  unfold missingCardsPerCompletableSuitOf, entries.
  exact (missingCards_loop maxScorePerStack stackSize scorePerStack 0 []).
Qed.

Lemma specCandidates_positive (scorePerStack maxScorePerStack : list Z)
    (stackSize : Z) :
  Forall (fun missing => 0 < missing)
    (specCandidates scorePerStack maxScorePerStack stackSize).
Proof.
  unfold specCandidates. apply Forall_forall. intros x Hx.
  apply in_map_iff in Hx. destruct Hx as ([s m] & Hx & Hin).
  apply filter_In in Hin. destruct Hin as (_ & Hc).
  apply andb_true_iff in Hc. destruct Hc as (Hm & Hs).
  apply Z.eqb_eq in Hm. apply Z.ltb_lt in Hs. lia.
Qed.

(** *** The sort *)

Lemma insertBy_perm (compare : Z -> Z -> Z) (x : Z) (xs : list Z) :
  Permutation (x :: xs) (insertBy compare x xs).
Proof.
  induction xs as [| y rest IH]; cbn; [reflexivity |].
  destruct (compare x y <=? 0); [reflexivity |].
  rewrite perm_swap. now apply perm_skip.
Qed.

Lemma sortBy_perm (compare : Z -> Z -> Z) (xs : list Z) :
  Permutation (sortBy compare xs) xs.
Proof.
  induction xs as [| x rest IH]; cbn; [constructor |].
  rewrite <- insertBy_perm. now apply perm_skip.
Qed.

Lemma insertBy_hd (y x : Z) (xs : list Z) :
  y <= x -> HdRel Z.le y xs ->
  HdRel Z.le y (insertBy (fun a b => a - b) x xs).
Proof.
  intros Hyx Hhd. destruct xs as [| z rest]; cbn.
  - now constructor.
  - destruct (x - z <=? 0); constructor; [assumption |].
    now inversion Hhd.
Qed.

Lemma insertBy_sorted (x : Z) (xs : list Z) :
  Sorted Z.le xs -> Sorted Z.le (insertBy (fun a b => a - b) x xs).
Proof.
  induction xs as [| y rest IH]; intros Hs; cbn.
  - repeat constructor.
  - apply Sorted_inv in Hs. destruct Hs as (Hrest & Hhd).
    destruct (Z.leb_spec (x - y) 0) as [Hle | Hgt].
    + constructor; [now constructor |]. constructor. lia.
    + constructor; [now apply IH |].
      apply insertBy_hd; [lia | assumption].
Qed.

Lemma sortBy_sorted (xs : list Z) :
  Sorted Z.le (sortBy (fun a b => a - b) xs).
Proof.
  induction xs as [| x rest IH]; cbn; [constructor |].
  now apply insertBy_sorted.
Qed.

Lemma sorted_head_le (x : Z) (xs : list Z) :
  Sorted Z.le (x :: xs) -> forall y, In y (x :: xs) -> x <= y.
Proof.
  intros Hs y Hy.
  apply Sorted_StronglySorted in Hs;
    [| exact (fun a b c => Z.le_trans a b c)].
  apply StronglySorted_inv in Hs. destruct Hs as (_ & Hall).
  destruct Hy as [<- | Hy]; [lia |].
  rewrite Forall_forall in Hall. now apply Hall.
Qed.

(** Two ascending arrangements of the same numbers are equal: the result
    of the sort of the source does not depend on its algorithm. *)
Lemma sorted_perm_unique (xs ys : list Z) :
  Sorted Z.le xs -> Sorted Z.le ys -> Permutation xs ys -> xs = ys.
Proof.
  revert ys. induction xs as [| x xs IH]; intros ys Hx Hy Hp.
  - apply Permutation_nil in Hp. now subst.
  - destruct ys as [| y ys].
    + apply Permutation_sym, Permutation_nil in Hp. discriminate.
    + assert (Hxy : x <= y).
      { apply (sorted_head_le x xs Hx).
        apply (Permutation_in y (Permutation_sym Hp)). now left. }
      assert (Hyx : y <= x).
      { apply (sorted_head_le y ys Hy).
        apply (Permutation_in x Hp). now left. }
      assert (x = y) by lia. subst y.
      f_equal. apply IH.
      * now apply Sorted_inv in Hx.
      * now apply Sorted_inv in Hy.
      * now apply Permutation_cons_inv in Hp.
Qed.

Lemma sortBy_unique (xs sorted : list Z) :
  Sorted Z.le sorted -> Permutation sorted xs ->
  sorted = sortBy (fun a b => a - b) xs.
Proof.
  intros Hs Hp. apply sorted_perm_unique.
  - assumption.
  - apply sortBy_sorted.
  - rewrite Hp. symmetry. apply sortBy_perm.
Qed.

(** *** The packing loop *)

Lemma completeSuits_packed (budget : Z) :
  forall missing cardsPlayed suitsCompleted,
    cardsPlayed <= budget ->
    exists j : nat,
      completeSuits budget missing cardsPlayed suitsCompleted
      = suitsCompleted + Z.of_nat j
      /\ (j <= length missing)%nat
      /\ cardsPlayed + sumZ (firstn j missing) <= budget
      /\ ((j < length missing)%nat ->
          budget < cardsPlayed + sumZ (firstn (j + 1) missing)).
Proof.
  induction missing as [| m rest IH]; intros c k Hc.
  - exists 0%nat. cbn. repeat split; lia.
  - cbn [completeSuits].
    destruct (Z.gtb_spec (c + m) budget) as [Hover | Hfits].
    + exists 0%nat. cbn. repeat split; lia.
    + destruct (IH (c + m) (k + 1)) as (j & Heq & Hlen & Hsum & Hnext);
        [lia |].
      exists (S j). cbn [firstn length sumZ fold_right Nat.add].
      fold (sumZ (firstn j rest)). fold (sumZ (firstn (j + 1) rest)).
      split; [lia |]. split; [lia |]. split; [lia |].
      intros Hlt. assert (Hj : (j < length rest)%nat) by lia.
      specialize (Hnext Hj). lia.
Qed.

Lemma completeSuits_greedilyPacked (budget : Z) (sorted : list Z) :
  0 <= budget ->
  greedilyPacked budget sorted (completeSuits budget sorted 0 0).
Proof.
  intros Hb.
  destruct (completeSuits_packed budget sorted 0 0 Hb)
    as (j & Heq & Hlen & Hsum & Hnext).
  rewrite Heq. unfold greedilyPacked. cbn [Z.add].
  rewrite Nat2Z.id.
  split; [lia |]. split; [lia |].
  intros Hlt. assert (Hj : (j < length sorted)%nat) by lia.
  specialize (Hnext Hj). lia.
Qed.

Lemma prefix_sum_mono (xs : list Z) :
  Forall (fun x => 0 < x) xs ->
  forall a b : nat, (a <= b)%nat ->
    sumZ (firstn a xs) <= sumZ (firstn b xs).
Proof.
  induction 1 as [| x xs Hx Hxs IH]; intros a b Hab.
  - rewrite !firstn_nil. lia.
  - destruct a as [| a]; destruct b as [| b]; cbn; try lia.
    + fold (sumZ (firstn b xs)).
      specialize (IH 0%nat b). cbn in IH. lia.
    + fold (sumZ (firstn a xs)). fold (sumZ (firstn b xs)).
      specialize (IH a b). lia.
Qed.

(** On positive numbers the greedy packing determines the number of
    suits. *)
Lemma greedilyPacked_unique (budget : Z) (xs : list Z) (k1 k2 : Z) :
  Forall (fun x => 0 < x) xs ->
  greedilyPacked budget xs k1 -> greedilyPacked budget xs k2 -> k1 = k2.
Proof.
  intros Hpos (Hk1 & Hfit1 & Hnext1) (Hk2 & Hfit2 & Hnext2).
  destruct (Z.lt_trichotomy k1 k2) as [Hlt | [Heq | Hgt]];
    [| assumption |]; exfalso.
  - assert (Hm := prefix_sum_mono xs Hpos
                    (Z.to_nat k1 + 1) (Z.to_nat k2)).
    lia.
  - assert (Hm := prefix_sum_mono xs Hpos
                    (Z.to_nat k2 + 1) (Z.to_nat k1)).
    lia.
Qed.

Lemma specPlayBudget_nonneg (missingScore deckSize endGameLength : Z) :
  0 < deckSize -> 0 <= specPlayBudget missingScore deckSize endGameLength.
Proof.
  intros Hd.
  unfold specPlayBudget, getMaxPlays, getMaxPlaysDuringFinalRound.
  destruct (Z.leb_spec missingScore (endGameLength + deckSize));
    destruct (Z.ltb_spec missingScore (endGameLength + 1)); lia.
Qed.

(** The number of suits completable before the final round, as the
    specification words it, is the number that the loops compute. *)
Lemma specSuitsCompletable_iff
    (scorePerStack maxScorePerStack : list Z) (stackSize budget k : Z) :
  0 <= budget ->
  (specSuitsCompletable scorePerStack maxScorePerStack stackSize budget k
   <-> k = completeSuits budget
             (sortBy (fun a b => a - b)
                (missingCardsPerCompletableSuitOf scorePerStack
                   maxScorePerStack stackSize))
             0 0).
Proof.
  intros Hb. rewrite missingCardsPerCompletableSuitOf_spec.
  split.
  - intros (sorted & Hperm & Hsorted & Hpacked).
    rewrite <- (sortBy_unique _ sorted Hsorted Hperm).
    apply (greedilyPacked_unique budget sorted); try assumption.
    + apply (Permutation_Forall (Permutation_sym Hperm)).
      apply specCandidates_positive.
    + now apply completeSuits_greedilyPacked.
  - intros ->.
    exists (sortBy (fun a b => a - b)
              (specCandidates scorePerStack maxScorePerStack stackSize)).
    split; [apply sortBy_perm |].
    split; [apply sortBy_sorted |].
    now apply completeSuits_greedilyPacked.
Qed.

(** C3. [getCluesStillUsableNotRounded] throws when the two arrays differ
    in length, throws when [discardValue < suitValue], and when neither
    holds it returns, and it returns [null] exactly when [deckSize <= 0]. *)
Theorem getCluesStillUsableNotRounded_guards :
  forall score scorePerStack maxScorePerStack stackSize deckSize
         endGameLength discardValue suitValue currentClues,
    (length scorePerStack <> length maxScorePerStack ->
     exists msg,
       getCluesStillUsableNotRounded score scorePerStack maxScorePerStack
         stackSize deckSize endGameLength discardValue suitValue currentClues
       = Thrown msg)
    /\ ((discardValue < suitValue)%Q ->
        exists msg,
          getCluesStillUsableNotRounded score scorePerStack maxScorePerStack
            stackSize deckSize endGameLength discardValue suitValue
            currentClues
          = Thrown msg)
    /\ (length scorePerStack = length maxScorePerStack ->
        ~ (discardValue < suitValue)%Q ->
        (exists value,
            getCluesStillUsableNotRounded score scorePerStack
              maxScorePerStack stackSize deckSize endGameLength discardValue
              suitValue currentClues
            = Returned value)
        /\ (getCluesStillUsableNotRounded score scorePerStack
              maxScorePerStack stackSize deckSize endGameLength discardValue
              suitValue currentClues
            = Returned None
            <-> deckSize <= 0)).
Proof.
  intros score sps msps stackSize deckSize egl dv sv cc.
  unfold getCluesStillUsableNotRounded.
  destruct (Nat.eqb_spec (length sps) (length msps)) as [Hlen | Hlen];
    cbn [negb].
  - split; [intros H; contradiction |].
    destruct (Qltb dv sv) eqn:Hlt.
    + apply Qltb_spec in Hlt.
      split; [intros _; eexists; reflexivity |].
      intros _ Hn. contradiction.
    + apply Qltb_false in Hlt.
      split; [intros H; contradiction |].
      intros _ _.
      destruct (Z.leb_spec deckSize 0) as [Hd | Hd].
      * split; [eexists; reflexivity |]. split; [intros _; exact Hd | reflexivity].
      * split; [eexists; reflexivity |].
        split; [discriminate | lia].
  - split; [intros _; eexists; reflexivity |].
    split; [intros _; eexists; reflexivity |].
    intros H. contradiction.
Qed.

(** The value returned when no guard stops the computation. *)
Lemma getCluesStillUsableNotRounded_returned
    (score : Z) (scorePerStack maxScorePerStack : list Z)
    (stackSize deckSize endGameLength : Z)
    (discardValue suitValue currentClues value : Q) :
  getCluesStillUsableNotRounded score scorePerStack maxScorePerStack
    stackSize deckSize endGameLength discardValue suitValue currentClues
  = Returned (Some value) ->
  0 < deckSize
  /\ value
     = (inject_Z (getMaxDiscardsBeforeFinalRound
                    (sumArray maxScorePerStack - score) deckSize
                    endGameLength) * discardValue
        + (if Qltb 0 suitValue
           then inject_Z
                  (completeSuits
                     (specPlayBudget (sumArray maxScorePerStack - score)
                        deckSize endGameLength)
                     (sortBy (fun a b => (a - b)%Z)
                        (missingCardsPerCompletableSuitOf scorePerStack
                           maxScorePerStack stackSize))
                     0%Z 0%Z) * suitValue
           else 0)
        + currentClues)%Q.
Proof.
  unfold getCluesStillUsableNotRounded, specPlayBudget.
  destruct (negb _); [discriminate |].
  destruct (Qltb discardValue suitValue); [discriminate |].
  destruct (Z.leb_spec deckSize 0) as [Hempty | Hdeck]; [discriminate |].
  intros Hret. injection Hret as <-. split; [assumption | reflexivity].
Qed.

(** C5 (amended). When [getCluesStillUsableNotRounded] returns a value,
    it is the maximum number of discards before the final round times
    [discardValue], plus the current clues, plus, when [suitValue] is
    positive, [suitValue] times the number of suits completable before
    the final round: the candidates are the suits whose maximum score is
    the stack size and whose score is below it, sorted ascending by the
    cards they still need and greedily packed into the play budget before
    the final round.  When [suitValue <= 0] nothing is added for suits. *)
Theorem getCluesStillUsableNotRounded_value :
  forall score scorePerStack maxScorePerStack stackSize deckSize
         endGameLength discardValue suitValue currentClues value,
    getCluesStillUsableNotRounded score scorePerStack maxScorePerStack
      stackSize deckSize endGameLength discardValue suitValue currentClues
    = Returned (Some value) ->
    cluesStillUsableValue score scorePerStack maxScorePerStack stackSize
      deckSize endGameLength discardValue suitValue currentClues value.
Proof.
  intros score sps msps stackSize deckSize egl dv sv cc v H.
  apply getCluesStillUsableNotRounded_returned in H.
  destruct H as (Hdeck & ->).
  unfold cluesStillUsableValue. cbv zeta.
  eexists. split.
  - apply specSuitsCompletable_iff; [| reflexivity].
    now apply specPlayBudget_nonneg.
  - split; intros Hsv.
    + apply Qltb_spec in Hsv. rewrite Hsv. ring.
    + assert (Hf : Qltb 0 sv = false).
      { apply Qltb_false. now apply Qle_not_lt. }
      rewrite Hf. ring.
Qed.

(** The theorem at work in a clue starved game: two suits of five, scores
    4 and 0, ten cards in the deck. *)
Lemma getCluesStillUsableNotRounded_value_witness :
  getCluesStillUsableNotRounded 4 [4; 0] [5; 5] 5 10 2 (1 # 2) (1 # 2) 8
  = Returned (Some (46 # 4))
  /\ cluesStillUsableValue 4 [4; 0] [5; 5] 5 10 2 (1 # 2) (1 # 2) 8 (46 # 4).
Proof.
  split; [reflexivity |].
  apply (getCluesStillUsableNotRounded_value
           4 [4; 0] [5; 5] 5 10 2 (1 # 2) (1 # 2) 8 (46 # 4)).
  reflexivity.
Defined.

(** C5 as it is worded fails for a negative [suitValue]: with discards
    worth 1 and a suit worth -1 the code returns 6 + 0 + 8 = 14, and the
    wording gives 6 - 1 + 8 = 13. *)
Lemma specCluesStillUsable_counterexample :
  ~ (forall value,
        getCluesStillUsableNotRounded 4 [4; 0] [5; 5] 5 10 2 1 (-1) 8
        = Returned (Some value) ->
        specCluesStillUsable 4 [4; 0] [5; 5] 5 10 2 1 (-1) 8 value).
Proof.
  intros H. specialize (H 14%Q eq_refl).
  destruct H as (k & Hk & Hv).
  apply specSuitsCompletable_iff in Hk;
    [| apply specPlayBudget_nonneg; lia].
  vm_compute in Hk. subst k.
  vm_compute in Hv. discriminate Hv.
Qed.

End CluesFacts.

(** ** Theorems on cards gotten, notes and double discards *)

Module StatsFacts.
Import Game Stats.

Lemma sameValue_Some (a : option Z) (x : Z) :
  sameValue a (Some x) = true <-> a = Some x.
Proof.
  destruct a as [y |]; cbn.
  - rewrite Z.eqb_eq. split; congruence.
  - split; discriminate.
Qed.

(** A loop that counts the elements passing a first test or else a
    second one. *)
Lemma count_loop {A : Type} (p q : A -> bool) :
  forall (xs : list A) (acc : Z),
    fold_left
      (fun n x => if p x then n + 1 else if q x then n + 1 else n) xs acc
    = acc + Z.of_nat (length (filter p xs))
      + Z.of_nat (length (filter (fun x => negb (p x) && q x) xs)).
Proof.
  induction xs as [| x xs IH]; intros acc; cbn [fold_left filter].
  - cbn. lia.
  - rewrite IH. destruct (p x); cbn [negb andb length].
    + lia.
    + destruct (q x); cbn [length]; lia.
Qed.

Lemma filter_orb_disjoint {A : Type} (p q : A -> bool) (xs : list A) :
  (forall x, p x = true -> q x = false) ->
  length (filter (fun x => p x || q x) xs)
  = (length (filter p xs) + length (filter q xs))%nat.
Proof.
  intros Hdis. induction xs as [| x xs IH]; cbn; [reflexivity |].
  destruct (p x) eqn:Hp; cbn.
  - rewrite (Hdis x Hp). cbn. now rewrite IH.
  - destruct (q x); cbn; rewrite IH; lia.
Qed.

Lemma filter_false {A : Type} (xs : list A) :
  filter (fun _ => false) xs = [].
Proof.
  induction xs; cbn; auto.
Qed.

Section WithRules.

Context {Suit : Type} {rules : Rules Suit}.

Lemma playStack_not_in_hand (c : CardState) :
  isCardInPlayerHand c = true ->
  isOnPlayStack c = false /\ isInDiscard c = false.
Proof.
  unfold isCardInPlayerHand, isOnPlayStack, isInDiscard.
  destruct (location c); intros H; split; congruence.
Qed.

Lemma getCardsGotten_count (deck : list CardState) (playStacks : PlayStacks)
    (directions : PlayStackDirections) (starts : PlayStackStarts)
    (playing shadowing : bool) (maxScore : Z) (variant : GameVariant Suit) :
  getCardsGotten deck playStacks directions starts playing shadowing
    maxScore variant
  = Z.min
      (Z.of_nat (length (specPlayedCards deck))
       + Z.of_nat (length (specCountedMisplays deck playing shadowing variant))
       + Z.of_nat (length (specCluedLiveCards deck playStacks directions
                             starts variant)))
      maxScore.
Proof.
  unfold getCardsGotten. rewrite count_loop.
  set (live := fun c : CardState =>
                 isCardInPlayerHand c && isCardClued c
                 && negb (isAllCardPossibilitiesTrash c deck playStacks
                            directions starts variant false)).
  set (counted := fun c : CardState =>
                    isInDiscard c && isMisplayed c && throwItInAHole variant
                    && (playing || shadowing)).
  assert (Hlive :
            filter (fun c => negb (isOnPlayStack c || counted c) && live c)
              deck
            = specCluedLiveCards deck playStacks directions starts variant).
  { unfold specCluedLiveCards. apply filter_ext. intros c.
    fold (live c). destruct (live c) eqn:Hl; [| now rewrite andb_false_r].
    unfold live in Hl. apply andb_true_iff in Hl. destruct Hl as (Hl & _).
    apply andb_true_iff in Hl. destruct Hl as (Hh & _).
    destruct (playStack_not_in_hand c Hh) as (Hp & Hd).
    unfold counted. rewrite Hp, Hd. reflexivity. }
  assert (Hplayed :
            length (filter (fun c => isOnPlayStack c || counted c) deck)
            = (length (specPlayedCards deck)
               + length (specCountedMisplays deck playing shadowing
                           variant))%nat).
  { rewrite filter_orb_disjoint.
    - unfold specPlayedCards, specCountedMisplays. f_equal.
      subst counted. cbv beta.
      destruct (throwItInAHole variant && (playing || shadowing)) eqn:Hg.
      + f_equal. apply filter_ext. intros c.
        rewrite <- andb_assoc, Hg. now rewrite andb_true_r.
      + replace (filter _ deck) with (@nil CardState); [reflexivity |].
        rewrite <- (filter_false deck). apply filter_ext. intros c.
        rewrite <- andb_assoc, Hg. now rewrite andb_false_r.
    - intros c Hc. unfold counted, isOnPlayStack, isInDiscard in *.
      destruct (location c); try discriminate. reflexivity. }
  subst live counted. cbv beta in Hlive, Hplayed.
  rewrite Hlive, Hplayed.
  destruct (Z.gtb_spec
              (0 + Z.of_nat
                     (length (specPlayedCards deck)
                      + length (specCountedMisplays deck playing shadowing
                                  variant))
               + Z.of_nat
                   (length (specCluedLiveCards deck playStacks directions
                              starts variant)))
              maxScore); lia.
Qed.

(** C6. [getCardsGotten] counts the cards on the play stacks, plus (only
    in throw-it-in-a-hole variants and when playing or shadowing) the
    misplayed cards of the discard pile, plus the cards in a player's hand
    that are clued and whose possibilities are not all trash; the total
    is clamped so that it never exceeds [maxScore].  With 3 played cards,
    2 such clued cards and a maximum score of 25 the result is 5. *)
Theorem getCardsGotten_spec :
  forall deck playStacks directions starts playing shadowing maxScore
         (variant : GameVariant Suit),
    getCardsGotten deck playStacks directions starts playing shadowing
      maxScore variant
    = Z.min
        (Z.of_nat (length (specPlayedCards deck))
         + Z.of_nat (length (specCountedMisplays deck playing shadowing
                               variant))
         + Z.of_nat (length (specCluedLiveCards deck playStacks directions
                               starts variant)))
        maxScore
    /\ getCardsGotten deck playStacks directions starts playing shadowing
         maxScore variant <= maxScore
    /\ (length (specPlayedCards deck) = 3%nat ->
        length (specCountedMisplays deck playing shadowing variant) = 0%nat ->
        length (specCluedLiveCards deck playStacks directions starts variant)
        = 2%nat ->
        getCardsGotten deck playStacks directions starts playing shadowing
          25 variant = 5).
Proof.
  intros deck playStacks directions starts playing shadowing maxScore variant.
  split; [apply getCardsGotten_count |].
  split.
  - rewrite getCardsGotten_count. apply Z.le_min_r.
  - intros Hp Hm Hl. rewrite getCardsGotten_count, Hp, Hm, Hl. reflexivity.
Qed.

(** *** Notes *)

Lemma adjustment_notedDelta (notes : list CardNote) (i : Z) (c : CardState) :
  getCardsGottenByNotesAdjustment notes i c = notedDelta notes (i, c).
Proof.
  unfold getCardsGottenByNotesAdjustment, notedDelta.
  destruct (index notes i) as [note |]; [| reflexivity].
  destruct (isCardClued c); cbn [andb negb].
  - destruct (unclued note || knownTrash note); reflexivity.
  - rewrite <- andb_assoc. reflexivity.
Qed.

Lemma notes_loop (notes : list CardNote) (keep : CardState -> bool) :
  forall (xs : list (Z * CardState)) (acc : Z),
    fold_left
      (fun n '(i, c) =>
         if keep c then n + getCardsGottenByNotesAdjustment notes i c else n)
      xs acc
    = acc + sumZ (map (notedDelta notes) (filter (fun '(_, c) => keep c) xs)).
Proof.
  induction xs as [| [i c] xs IH]; intros acc; cbn [fold_left filter].
  - cbn. lia.
  - rewrite IH. destruct (keep c); cbn [map sumZ fold_right].
    + rewrite adjustment_notedDelta. fold (sumZ (map (notedDelta notes)
        (filter (fun '(_, c0) => keep c0) xs))). lia.
    + reflexivity.
Qed.

(** C8 (amended). [getCardsGottenByNotes] sums, over exactly the cards
    that are in a player's hand and whose possibilities are not all trash,
    a delta per card: -1 when the card is clued and its note marks it
    unclued or known trash; +1 when the card is not clued and its note
    marks it clued or finessed and marks it neither unclued nor known
    trash; 0 in every other case, also when the card has no note. *)
Theorem getCardsGottenByNotes_spec :
  forall deck playStacks directions starts (variant : GameVariant Suit) notes,
    getCardsGottenByNotes deck playStacks directions starts variant notes
    = sumZ (map (notedDelta notes)
              (specNotedCards deck playStacks directions starts variant)).
Proof.
  intros deck playStacks directions starts variant notes.
  unfold getCardsGottenByNotes, specNotedCards.
  exact (notes_loop notes
           (fun c => isCardInPlayerHand c
                     && negb (isAllCardPossibilitiesTrash c deck playStacks
                                directions starts variant false))
           (entries deck) 0).
Qed.

(** *** Double discards *)

Lemma knownCopy_none (cardDiscarded : CardState) (s r : Z)
    (cards : list CardState) :
  suitIndex cardDiscarded = Some s ->
  rank cardDiscarded = Some r ->
  (existsb (isKnownCopyOf cardDiscarded) cards = false
   <-> forall other,
       In other cards ->
       order other <> order cardDiscarded ->
       suitIndex other = Some s ->
       rank other = Some r ->
       isCardInPlayerHand other = true ->
       length (possibleCardsFromClues other) <> 1%nat).
Proof.
  intros Hs Hr. split.
  - intros Hnone other Hin Hord Hos Hor Hhand Hlen.
    assert (Hex : existsb (isKnownCopyOf cardDiscarded) cards = true).
    { apply existsb_exists. exists other. split; [assumption |].
      unfold isKnownCopyOf. rewrite Hs, Hr, Hos, Hor, Hhand, Hlen.
      cbn. rewrite !Z.eqb_refl.
      apply Z.eqb_neq in Hord. rewrite Hord. reflexivity. }
    congruence.
  - intros Hall.
    destruct (existsb (isKnownCopyOf cardDiscarded) cards) eqn:Hex;
      [| reflexivity].
    apply existsb_exists in Hex. destruct Hex as (other & Hin & Hk).
    unfold isKnownCopyOf in Hk. rewrite Hs, Hr in Hk.
    repeat (apply andb_true_iff in Hk; destruct Hk as (Hk & ?)).
    exfalso. apply (Hall other Hin).
    + apply negb_true_iff in Hk. now apply Z.eqb_neq.
    + now apply sameValue_Some.
    + now apply sameValue_Some.
    + assumption.
    + now apply Nat.eqb_eq.
Qed.

Lemma getDoubleDiscardCard_shape (orderOfDiscardedCard : Z)
    (gameState : GameState) (variant : GameVariant Suit) :
  getDoubleDiscardCard orderOfDiscardedCard gameState variant = None
  \/ getDoubleDiscardCard orderOfDiscardedCard gameState variant
     = Some orderOfDiscardedCard.
Proof.
  unfold getDoubleDiscardCard.
  repeat match goal with
         | |- context [match ?x with _ => _ end] => destruct x
         end; auto.
Qed.

Lemma getDoubleDiscardCard_situation (orderOfDiscardedCard : Z)
    (gameState : GameState) (variant : GameVariant Suit) :
  getDoubleDiscardCard orderOfDiscardedCard gameState variant
  = Some orderOfDiscardedCard
  <-> doubleDiscardSituation orderOfDiscardedCard gameState variant.
Proof.
  unfold getDoubleDiscardCard, doubleDiscardSituation, nextHandLocked.
  split.
  - destruct (index (deck gameState) orderOfDiscardedCard)
      as [card |] eqn:Hcard; [| discriminate].
    destruct (currentPlayerIndex (turn gameState)) as [current |] eqn:Hcur;
      [| discriminate].
    cbv zeta.
    destruct (match index (hands gameState) _ with
              | Some hand => isHandLocked hand (deck gameState)
              | None => false
              end) eqn:Hlocked; [discriminate |].
    destruct (suitIndex card) as [s |] eqn:Hs; [| discriminate].
    destruct (rank card) as [r |] eqn:Hr; [| discriminate].
    destruct (isCardNeedsToBePlayed s r _ _ _ _ variant) eqn:Hneed;
      [| discriminate].
    cbn [negb].
    destruct (existsb (isKnownCopyOf card) (deck gameState)) eqn:Hcopy;
      [discriminate |].
    destruct (index (suits variant) s) as [suit |] eqn:Hsuit;
      [| discriminate].
    destruct (Z.eqb_spec (getNumCopiesOfCard suit r variant)
                (getNumDiscardedCopiesOfCard (deck gameState) s r + 1))
      as [Hcopies | Hcopies]; [| discriminate].
    intros _. split; [discriminate |]. split.
    + intros (current' & hand & Hc & Hhand & Hl).
      injection Hc as <-. rewrite Hhand, Hl in Hlocked. discriminate.
    + exists card, s, r, suit.
      repeat split; try assumption.
      now apply (knownCopy_none card s r).
  - intros (Hcur & Hnot & card & s & r & suit & Hcard & Hs & Hr & Hneed
            & Hcopy & Hsuit & Hcopies).
    rewrite Hcard.
    destruct (currentPlayerIndex (turn gameState)) as [current |];
      [| contradiction].
    cbv zeta.
    destruct (match index (hands gameState) _ with
              | Some hand => isHandLocked hand (deck gameState)
              | None => false
              end) eqn:Hlocked.
    + exfalso. apply Hnot.
      destruct (index (hands gameState) _) as [hand |] eqn:Hhand;
        [| discriminate].
      exists current, hand. repeat split; assumption.
    + rewrite Hs, Hr, Hneed. cbn [negb].
      apply (knownCopy_none card s r _ Hs Hr) in Hcopy.
      rewrite Hcopy, Hsuit, Hcopies, Z.eqb_refl. reflexivity.
Qed.

(** C4. [getDoubleDiscardCard] returns the order of the discarded card
    exactly in a double discard situation, and [null] otherwise: the game
    is not over, the next player's hand is not locked, the suit and the
    rank of the discarded card are known, the card still needs to be
    played, no other card of that suit and rank is in a player's hand
    with its identity fully determined by clues, and the total number of
    copies is the number of discarded copies plus one.  It returns
    [null] whenever the next player's hand is locked. *)
Theorem getDoubleDiscardCard_spec :
  forall orderOfDiscardedCard gameState (variant : GameVariant Suit),
    (getDoubleDiscardCard orderOfDiscardedCard gameState variant
     = Some orderOfDiscardedCard
     <-> doubleDiscardSituation orderOfDiscardedCard gameState variant)
    /\ (~ doubleDiscardSituation orderOfDiscardedCard gameState variant
        <-> getDoubleDiscardCard orderOfDiscardedCard gameState variant
            = None)
    /\ (nextHandLocked gameState ->
        getDoubleDiscardCard orderOfDiscardedCard gameState variant = None).
Proof.
  intros o gs variant.
  assert (Hiff := getDoubleDiscardCard_situation o gs variant).
  assert (Hnone :
            ~ doubleDiscardSituation o gs variant
            <-> getDoubleDiscardCard o gs variant = None).
  { split.
    - intros Hnot.
      destruct (getDoubleDiscardCard_shape o gs variant) as [E | E];
        [assumption |].
      apply Hiff in E. contradiction.
    - intros E Hsit. apply Hiff in Hsit. congruence. }
  split; [exact Hiff |]. split; [exact Hnone |].
  intros Hlocked. apply Hnone.
  intros (_ & Hnot & _). contradiction.
Qed.

(** C10. [getDoubleDiscardCard] returns either [null] or the order that
    it was given, and never the order of another card. *)
Theorem getDoubleDiscardCard_null_or_same :
  forall orderOfDiscardedCard gameState (variant : GameVariant Suit),
    (getDoubleDiscardCard orderOfDiscardedCard gameState variant = None
     \/ getDoubleDiscardCard orderOfDiscardedCard gameState variant
        = Some orderOfDiscardedCard)
    /\ (forall other,
           getDoubleDiscardCard orderOfDiscardedCard gameState variant
           = Some other ->
           other = orderOfDiscardedCard).
Proof.
  intros o gs variant.
  split; [apply getDoubleDiscardCard_shape |].
  intros other H.
  destruct (getDoubleDiscardCard_shape o gs variant) as [E | E];
    congruence.
Qed.

End WithRules.

End StatsFacts.

(** ** The statistics on concrete decks *)

Module Examples.
Import Game Stats Sample.

(** Three played cards and two clued live cards in hand: 5 cards gotten. *)
Example getCardsGotten_sample :
  getCardsGotten (rules := sampleRules) sampleDeck [[0; 2]; [1]; []; []; []]
    [Up; Up; Up; Up; Up] [None; None; None; None; None] true false 25
    noVariant = 5.
Proof. reflexivity. Qed.

(** The clamp: the same deck with a maximum score of 4. *)
Example getCardsGotten_clamped :
  getCardsGotten (rules := sampleRules) sampleDeck [[0; 2]; [1]; []; []; []]
    [Up; Up; Up; Up; Up] [None; None; None; None; None] true false 4
    noVariant = 4.
Proof. reflexivity. Qed.

(** The blue 3 was discarded by player 1; the hand of player 0, who is
    next, is not locked, and one blue 3 is left: a double discard. *)
Example getDoubleDiscardCard_sample :
  getDoubleDiscardCard (rules := sampleRules) 7 (sampleState (Some 1))
    noVariant = Some 7.
Proof. reflexivity. Qed.

(** The same discard by player 0: the hand of player 1 is locked. *)
Example getDoubleDiscardCard_locked :
  getDoubleDiscardCard (rules := sampleRules) 7 (sampleState (Some 0))
    noVariant = None.
Proof. reflexivity. Qed.

(** After the end of the game there is no double discard. *)
Example getDoubleDiscardCard_game_over :
  getDoubleDiscardCard (rules := sampleRules) 7 (sampleState None)
    noVariant = None.
Proof. reflexivity. Qed.

(** C8 as it is worded fails on a note that says both clued and known
    trash, on a card without a clue: the code adds 0, the wording +1. *)
Lemma specNoteDelta_counterexample :
  ~ (getCardsGottenByNotes (rules := sampleRules) notedDeck [] [] []
       noVariant contradictoryNotes
     = sumZ (map (specNoteDelta (rules := sampleRules) contradictoryNotes)
               (specNotedCards (rules := sampleRules) notedDeck [] [] []
                  noVariant))).
Proof.
  vm_compute. discriminate.
Qed.

End Examples.

(** ** Further laws of the pace *)

Module PaceLaws.
Import Pace Clues.

(** A successful play (one more point, one card drawn) leaves the pace as
    it is, and a discard (one card drawn) lowers it by one, as long as a
    card is left in the deck afterwards. *)
Theorem getPace_play_discard :
  forall score deckSize maxScore endGameLength,
    1 < deckSize ->
    getPace (score + 1) (deckSize - 1) maxScore endGameLength false
    = getPace score deckSize maxScore endGameLength false
    /\ exists pace,
        getPace score deckSize maxScore endGameLength false = Some pace
        /\ getPace score (deckSize - 1) maxScore endGameLength false
           = Some (pace - 1).
Proof.
  intros score deckSize maxScore endGameLength Hdeck.
  unfold getPace.
  destruct (Z.leb_spec (deckSize - 1) 0); [lia |].
  destruct (Z.leb_spec deckSize 0); [lia |].
  split.
  - f_equal. lia.
  - eexists. split; [reflexivity |]. f_equal. lia.
Qed.

Lemma getPace_play_discard_witness :
  1 < 40
  /\ getPace (0 + 1) (40 - 1) 25 2 false = getPace 0 40 25 2 false
  /\ exists pace,
      getPace 0 40 25 2 false = Some pace
      /\ getPace 0 (40 - 1) 25 2 false = Some (pace - 1).
Proof.
  split; [lia |]. apply (getPace_play_discard 0 40 25 2). lia.
Defined.

(** The risk of the pace that [getPace] computes: Low once the game is
    over or the deck is empty, and Zero exactly when the game runs, the
    deck is not empty and [score + deckSize + endGameLength] does not
    exceed the maximum score. *)
Theorem getPaceRisk_of_getPace :
  forall score deckSize maxScore endGameLength gameOver numPlayers,
    (gameOver = true \/ deckSize <= 0 ->
     getPaceRisk (getPace score deckSize maxScore endGameLength gameOver)
       numPlayers = Low)
    /\ (getPaceRisk (getPace score deckSize maxScore endGameLength gameOver)
          numPlayers = Zero
        <-> gameOver = false /\ 0 < deckSize
            /\ score + deckSize + endGameLength <= maxScore).
Proof.
  intros score deckSize maxScore endGameLength gameOver numPlayers.
  unfold getPace.
  destruct gameOver; cbn [getPaceRisk].
  - split; [reflexivity |]. split; [discriminate | intros (H & _); discriminate].
  - destruct (Z.leb_spec deckSize 0) as [Hempty | Hdeck]; cbn [getPaceRisk].
    + split; [reflexivity |]. split; [discriminate | lia].
    + split; [intros [H | H]; [discriminate | lia] |].
      cbv zeta.
      destruct (Z.leb_spec (score + deckSize - maxScore + endGameLength) 0).
      * split; [intros _; repeat split; lia | reflexivity].
      * split; [| lia].
        destruct (_ <? 0); [discriminate |].
        destruct (_ <? 0); discriminate.
Qed.

(** With a card in the deck, the discard budget, the play budget before
    the final round and the plays of the final round fit together: the
    discards and the plays before the final round are not negative and
    take [deckSize - 1] turns together, the final round has at most
    [endGameLength + 1] plays, and no more than [cardsToPlay] cards are
    played in all. *)
Theorem turns_before_final_round :
  forall cardsToPlay deckSize endGameLength,
    0 < deckSize ->
    0 <= getMaxDiscardsBeforeFinalRound cardsToPlay deckSize endGameLength
    /\ 0 <= getMaxPlays cardsToPlay deckSize endGameLength
            - getMaxPlaysDuringFinalRound cardsToPlay endGameLength
    /\ getMaxDiscardsBeforeFinalRound cardsToPlay deckSize endGameLength
       + (getMaxPlays cardsToPlay deckSize endGameLength
          - getMaxPlaysDuringFinalRound cardsToPlay endGameLength)
       = deckSize - 1
    /\ getMaxPlaysDuringFinalRound cardsToPlay endGameLength
       <= endGameLength + 1
    /\ getMaxPlays cardsToPlay deckSize endGameLength <= cardsToPlay.
Proof.
  intros c d e Hd.
  unfold getMaxDiscardsBeforeFinalRound, getMaxPlays,
    getMaxPlaysDuringFinalRound.
  destruct (Z.leb_spec c (e + 1)); destruct (Z.leb_spec c (e + d));
    destruct (Z.ltb_spec c (e + 1)); lia.
Qed.

Lemma turns_before_final_round_witness :
  0 < 10
  /\ 0 <= getMaxDiscardsBeforeFinalRound 6 10 2
  /\ 0 <= getMaxPlays 6 10 2 - getMaxPlaysDuringFinalRound 6 2
  /\ getMaxDiscardsBeforeFinalRound 6 10 2
     + (getMaxPlays 6 10 2 - getMaxPlaysDuringFinalRound 6 2)
     = 10 - 1
  /\ getMaxPlaysDuringFinalRound 6 2 <= 2 + 1
  /\ getMaxPlays 6 10 2 <= 6.
Proof.
  split; [lia |]. apply (turns_before_final_round 6 10 2). lia.
Defined.

(** The discards before the final round are the pace, kept between 0 and
    [deckSize - 1]. *)
Theorem getMaxDiscardsBeforeFinalRound_is_pace :
  forall score deckSize maxScore endGameLength pace,
    getPace score deckSize maxScore endGameLength false = Some pace ->
    getMaxDiscardsBeforeFinalRound (maxScore - score) deckSize endGameLength
    = Z.min (deckSize - 1) (Z.max 0 pace).
Proof.
  intros score d m e pace. unfold getPace.
  destruct (Z.leb_spec d 0) as [Hempty | Hdeck]; [discriminate |].
  intros Hpace. injection Hpace as <-.
  unfold getMaxDiscardsBeforeFinalRound.
  destruct (Z.leb_spec (m - score) (e + 1));
    destruct (Z.leb_spec (m - score) (e + d)); lia.
Qed.

Lemma getMaxDiscardsBeforeFinalRound_is_pace_witness :
  getPace 4 10 10 2 false = Some 6
  /\ getMaxDiscardsBeforeFinalRound (10 - 4) 10 2
     = Z.min (10 - 1) (Z.max 0 6).
Proof.
  split; [reflexivity |].
  apply (getMaxDiscardsBeforeFinalRound_is_pace 4 10 10 2 6). reflexivity.
Defined.

(** With at least one player the risks are intervals of the pace, in
    the order Zero, High, Medium, Low: High up to
    [numPlayers - floor(numPlayers / 2)], Medium up to [numPlayers], Low
    from [numPlayers] on. *)
Theorem getPaceRisk_intervals :
  forall pace numPlayers,
    1 <= numPlayers ->
    (getPaceRisk (Some pace) numPlayers = Zero <-> pace <= 0)
    /\ (getPaceRisk (Some pace) numPlayers = High
        <-> 0 < pace < numPlayers - numPlayers / 2)
    /\ (getPaceRisk (Some pace) numPlayers = Medium
        <-> numPlayers - numPlayers / 2 <= pace < numPlayers)
    /\ (getPaceRisk (Some pace) numPlayers = Low <-> numPlayers <= pace).
Proof.
  intros p n Hn.
  assert (Hhalf : 0 <= n / 2 < n).
  { split; [apply Z.div_pos; lia | apply Z.div_lt_upper_bound; lia]. }
  unfold getPaceRisk.
  destruct (Z.leb_spec p 0).
  { repeat split; intros; try discriminate; lia. }
  destruct (Z.ltb_spec (p - n + n / 2) 0).
  { repeat split; intros; try discriminate; lia. }
  destruct (Z.ltb_spec (p - n) 0);
    repeat split; intros; try discriminate; lia.
Qed.

Lemma getPaceRisk_intervals_witness :
  1 <= 4
  /\ (getPaceRisk (Some 1) 4 = Zero <-> 1 <= 0)
  /\ (getPaceRisk (Some 1) 4 = High <-> 0 < 1 < 4 - 4 / 2)
  /\ (getPaceRisk (Some 1) 4 = Medium <-> 4 - 4 / 2 <= 1 < 4)
  /\ (getPaceRisk (Some 1) 4 = Low <-> 4 <= 1).
Proof.
  split; [lia |]. apply (getPaceRisk_intervals 1 4). lia.
Defined.

End PaceLaws.

(** ** Further laws of the usable clues *)

Module CluesLaws.
Import Stats Clues Start CluesFacts.

Lemma sumZ_app (xs ys : list Z) : sumZ (xs ++ ys) = sumZ xs + sumZ ys.
Proof.
  induction xs as [| x xs IH]; cbn; [reflexivity |].
  fold (sumZ (xs ++ ys)). fold (sumZ xs). lia.
Qed.

Lemma sumZ_cons (x : Z) (xs : list Z) : sumZ (x :: xs) = x + sumZ xs.
Proof. reflexivity. Qed.

Lemma sumZ_positive (xs : list Z) :
  Forall (fun x => 0 < x) xs -> Z.of_nat (length xs) <= sumZ xs.
Proof.
  induction 1 as [| x xs Hx Hxs IH]; [cbn; lia |].
  rewrite sumZ_cons. cbn [length]. lia.
Qed.

(** The first elements of an ascending list weigh no more than any other
    choice of as many elements. *)
Lemma sorted_prefix_minimal (sorted : list Z) :
  Sorted Z.le sorted ->
  forall chosen others,
    Permutation (chosen ++ others) sorted ->
    sumZ (firstn (length chosen) sorted) <= sumZ chosen.
Proof.
  induction sorted as [| x rest IH]; intros Hsorted chosen others Hperm.
  - rewrite firstn_nil. apply Permutation_sym, Permutation_nil in Hperm.
    apply app_eq_nil in Hperm. destruct Hperm as (-> & _). cbn. lia.
  - destruct chosen as [| y chosen']; [cbn; lia |].
    assert (Hrest : Sorted Z.le rest) by now apply Sorted_inv in Hsorted.
    destruct (in_dec Z.eq_dec x (y :: chosen')) as [Hin | Hout].
    + apply in_split in Hin. destruct Hin as (c1 & c2 & Hc).
      rewrite Hc in Hperm |- *.
      rewrite <- app_assoc in Hperm. cbn [app] in Hperm.
      apply Permutation_sym, Permutation_cons_app_inv in Hperm.
      rewrite app_assoc in Hperm.
      specialize (IH Hrest (c1 ++ c2) others (Permutation_sym Hperm)).
      rewrite length_app in IH |- *. cbn [length].
      replace (length c1 + S (length c2))%nat
        with (S (length c1 + length c2)) by lia.
      cbn [firstn]. rewrite sumZ_cons, !sumZ_app, sumZ_cons.
      rewrite sumZ_app in IH. lia.
    + assert (Hx : In x others).
      { assert (Hall : In x ((y :: chosen') ++ others)).
        { apply (Permutation_in x (Permutation_sym Hperm)). now left. }
        apply in_app_or in Hall. tauto. }
      apply in_split in Hx. destruct Hx as (o1 & o2 & Ho).
      assert (Hy : x <= y).
      { apply (sorted_head_le x rest Hsorted).
        apply (Permutation_in y Hperm). now left. }
      rewrite Ho in Hperm.
      rewrite app_assoc in Hperm.
      apply Permutation_sym, Permutation_cons_app_inv in Hperm.
      rewrite <- app_assoc in Hperm. cbn [app] in Hperm.
      assert (Hperm' : Permutation (chosen' ++ y :: o1 ++ o2) rest).
      { rewrite <- Permutation_middle. now apply Permutation_sym. }
      specialize (IH Hrest chosen' (y :: o1 ++ o2) Hperm').
      cbn [length firstn]. rewrite !sumZ_cons. lia.
Qed.

(** The number of suits that the loops complete, for a budget. *)
Lemma completeSuits_bounds (budget : Z)
    (scorePerStack maxScorePerStack : list Z) (stackSize : Z) :
  0 <= budget ->
  0 <= completeSuits budget
         (sortBy (fun a b => a - b)
            (missingCardsPerCompletableSuitOf scorePerStack maxScorePerStack
               stackSize))
         0 0
    <= Z.min budget (Z.of_nat (length scorePerStack)).
Proof.
  intros Hb.
  set (candidates := missingCardsPerCompletableSuitOf scorePerStack
                       maxScorePerStack stackSize).
  set (sorted := sortBy (fun a b => a - b) candidates).
  destruct (completeSuits_greedilyPacked budget sorted Hb)
    as (Hk & Hfit & _).
  set (k := completeSuits budget sorted 0 0) in *.
  assert (Hpos : Forall (fun x => 0 < x) sorted).
  { apply (Permutation_Forall (Permutation_sym (sortBy_perm _ candidates))).
    unfold candidates. rewrite missingCardsPerCompletableSuitOf_spec.
    apply specCandidates_positive. }
  assert (Hprefix : Z.of_nat (length (firstn (Z.to_nat k) sorted))
                    <= sumZ (firstn (Z.to_nat k) sorted)).
  { apply sumZ_positive.
    rewrite <- (firstn_skipn (Z.to_nat k) sorted) in Hpos.
    apply Forall_app in Hpos. tauto. }
  rewrite length_firstn in Hprefix.
  assert (Hlen : (length sorted <= length scorePerStack)%nat).
  { unfold sorted. rewrite (Permutation_length (sortBy_perm _ candidates)).
    unfold candidates. rewrite missingCardsPerCompletableSuitOf_spec.
    unfold specCandidates. rewrite length_map.
    etransitivity; [apply filter_length_le |].
    rewrite length_combine. lia. }
  lia.
Qed.

(** The greedy packing is the best one: no choice of candidate suits whose
    missing cards fit into the play budget has more suits than the loops
    complete; and the suits that the loops complete are such a choice. *)
Theorem completeSuits_optimal :
  forall budget scorePerStack maxScorePerStack stackSize chosen others,
    chosenAmong chosen others
      (missingCardsPerCompletableSuitOf scorePerStack maxScorePerStack
         stackSize) ->
    sumZ chosen <= budget ->
    Z.of_nat (length chosen)
    <= completeSuits budget
         (sortBy (fun a b => a - b)
            (missingCardsPerCompletableSuitOf scorePerStack maxScorePerStack
               stackSize))
         0 0
    /\ exists best rest,
        chosenAmong best rest
          (missingCardsPerCompletableSuitOf scorePerStack maxScorePerStack
             stackSize)
        /\ sumZ best <= budget
        /\ Z.of_nat (length best)
           = completeSuits budget
               (sortBy (fun a b => a - b)
                  (missingCardsPerCompletableSuitOf scorePerStack
                     maxScorePerStack stackSize))
               0 0.
Proof.
  intros budget sps msps stackSize chosen others Hchosen Hfits.
  set (candidates := missingCardsPerCompletableSuitOf sps msps stackSize)
    in *.
  set (sorted := sortBy (fun a b => a - b) candidates).
  assert (Hperm : Permutation sorted candidates) by apply sortBy_perm.
  assert (Hsorted : Sorted Z.le sorted) by apply sortBy_sorted.
  assert (Hpos : Forall (fun x => 0 < x) sorted).
  { apply (Permutation_Forall (Permutation_sym Hperm)).
    unfold candidates. rewrite missingCardsPerCompletableSuitOf_spec.
    apply specCandidates_positive. }
  unfold chosenAmong in Hchosen.
  assert (Hin : Permutation (chosen ++ others) sorted).
  { rewrite Hchosen. now apply Permutation_sym. }
  assert (Hposc : Forall (fun x => 0 < x) chosen).
  { apply Forall_forall. intros x Hx. rewrite Forall_forall in Hpos.
    apply Hpos. apply (Permutation_in x Hin). apply in_or_app. now left. }
  assert (Hb : 0 <= budget).
  { assert (H0 := sumZ_positive chosen Hposc). lia. }
  destruct (completeSuits_greedilyPacked budget sorted Hb)
    as (Hk & Hfit & Hnext).
  set (k := completeSuits budget sorted 0 0) in *.
  split.
  - assert (Hmin := sorted_prefix_minimal sorted Hsorted chosen others Hin).
    assert (Hlen : (length chosen <= length sorted)%nat).
    { rewrite <- (Permutation_length Hin), length_app. lia. }
    destruct (Z.le_gt_cases (Z.of_nat (length chosen)) k) as [Hle | Hgt];
      [assumption | exfalso].
    assert (Hmono := prefix_sum_mono sorted Hpos
                       (Z.to_nat k + 1) (length chosen)).
    lia.
  - exists (firstn (Z.to_nat k) sorted), (skipn (Z.to_nat k) sorted).
    split; [| split].
    + unfold chosenAmong. now rewrite firstn_skipn.
    + assumption.
    + rewrite length_firstn. lia.
Qed.

Lemma completeSuits_optimal_witness :
  chosenAmong [5] [1] (missingCardsPerCompletableSuitOf [4; 0] [5; 5] 5)
  /\ sumZ [5] <= 5
  /\ Z.of_nat (length [5])
     <= completeSuits 5
          (sortBy (fun a b => a - b)
             (missingCardsPerCompletableSuitOf [4; 0] [5; 5] 5))
          0 0
  /\ exists best rest,
      chosenAmong best rest
        (missingCardsPerCompletableSuitOf [4; 0] [5; 5] 5)
      /\ sumZ best <= 5
      /\ Z.of_nat (length best)
         = completeSuits 5
             (sortBy (fun a b => a - b)
                (missingCardsPerCompletableSuitOf [4; 0] [5; 5] 5))
             0 0.
Proof.
  assert (Hc : chosenAmong [5] [1]
                 (missingCardsPerCompletableSuitOf [4; 0] [5; 5] 5)).
  { unfold chosenAmong. cbn. apply perm_swap. }
  assert (Hs : sumZ [5] <= 5) by (cbn; lia).
  split; [exact Hc |]. split; [exact Hs |].
  exact (completeSuits_optimal 5 [4; 0] [5; 5] 5 [5] [1] Hc Hs).
Defined.

(** *** Bounds of the value *)

Lemma returned_guards
    (score : Z) (scorePerStack maxScorePerStack : list Z)
    (stackSize deckSize endGameLength : Z)
    (discardValue suitValue currentClues value : Q) :
  getCluesStillUsableNotRounded score scorePerStack maxScorePerStack
    stackSize deckSize endGameLength discardValue suitValue currentClues
  = Returned (Some value) ->
  (suitValue <= discardValue)%Q.
Proof.
  unfold getCluesStillUsableNotRounded.
  destruct (negb _); [discriminate |].
  destruct (Qltb discardValue suitValue) eqn:Hlt; [discriminate |].
  intros _. apply Qltb_false in Hlt. now apply Qnot_lt_le.
Qed.

Lemma budget_split (cardsToPlay deckSize endGameLength : Z) :
  0 < deckSize ->
  0 <= getMaxDiscardsBeforeFinalRound cardsToPlay deckSize endGameLength
  /\ getMaxDiscardsBeforeFinalRound cardsToPlay deckSize endGameLength
     + specPlayBudget cardsToPlay deckSize endGameLength
     = deckSize - 1.
Proof.
  intros Hd.
  unfold getMaxDiscardsBeforeFinalRound, specPlayBudget, getMaxPlays,
    getMaxPlaysDuringFinalRound.
  destruct (Z.leb_spec cardsToPlay (endGameLength + 1));
    destruct (Z.leb_spec cardsToPlay (endGameLength + deckSize));
    destruct (Z.ltb_spec cardsToPlay (endGameLength + 1)); lia.
Qed.

(** When discards are worth something ([discardValue >= 0]), the usable
    clues are at least the current clues and at most the current clues
    plus [deckSize - 1] discards: completing suits never gives more than
    discarding in the same turns. *)
Theorem getCluesStillUsableNotRounded_bounds :
  forall score scorePerStack maxScorePerStack stackSize deckSize
         endGameLength discardValue suitValue currentClues value,
    getCluesStillUsableNotRounded score scorePerStack maxScorePerStack
      stackSize deckSize endGameLength discardValue suitValue currentClues
    = Returned (Some value) ->
    (0 <= discardValue)%Q ->
    (currentClues <= value)%Q
    /\ (value <= currentClues + inject_Z (deckSize - 1) * discardValue)%Q.
Proof.
  intros score sps msps stackSize d e dv sv cc v Hret Hdv.
  assert (Hsv := returned_guards _ _ _ _ _ _ _ _ _ _ Hret).
  apply getCluesStillUsableNotRounded_returned in Hret.
  destruct Hret as (Hd & ->).
  set (missing := sumArray msps - score).
  destruct (budget_split missing d e Hd) as (HD & Hsplit).
  assert (Hb := specPlayBudget_nonneg missing d e Hd).
  assert (Hk := completeSuits_bounds (specPlayBudget missing d e)
                  sps msps stackSize Hb).
  set (k := completeSuits _ _ 0 0) in *.
  assert (HkB : k <= specPlayBudget missing d e) by lia.
  assert (Hk0 : 0 <= k) by lia.
  rewrite <- Hsplit.
  rewrite inject_Z_plus.
  rewrite Zle_Qle in HD, Hb, HkB, Hk0.
  generalize dependent (inject_Z k).
  generalize dependent (inject_Z (specPlayBudget missing d e)).
  generalize dependent (inject_Z
                          (getMaxDiscardsBeforeFinalRound missing d e)).
  intros qD HD qB Hb qk HkB Hk0.
  change (inject_Z 0) with 0%Q in *.
  destruct (Qltb 0 sv) eqn:Hpos.
  - apply Qltb_spec in Hpos. split; nra.
  - split; nra.
Qed.

Lemma getCluesStillUsableNotRounded_bounds_witness :
  getCluesStillUsableNotRounded 4 [4; 0] [5; 5] 5 10 2 (1 # 2) (1 # 2) 8
  = Returned (Some (46 # 4))
  /\ (0 <= 1 # 2)%Q
  /\ (8 <= 46 # 4)%Q
  /\ (46 # 4 <= 8 + inject_Z (10 - 1) * (1 # 2))%Q.
Proof.
  split; [reflexivity |].
  split; [discriminate |].
  apply (getCluesStillUsableNotRounded_bounds
           4 [4; 0] [5; 5] 5 10 2 (1 # 2) (1 # 2) 8 (46 # 4)).
  - reflexivity.
  - discriminate.
Defined.

(** *** Rounding *)

(** [getCluesStillUsable] rounds the value down to the next integer, and
    rounding changes nothing when the clue values and the current clues
    are integers: it only matters in clue starved variants. *)
Theorem getCluesStillUsable_rounding :
  forall score scorePerStack maxScorePerStack stackSize deckSize
         endGameLength discardValue suitValue currentClues value,
    getCluesStillUsableNotRounded score scorePerStack maxScorePerStack
      stackSize deckSize endGameLength discardValue suitValue currentClues
    = Returned (Some value) ->
    exists rounded,
      getCluesStillUsable score scorePerStack maxScorePerStack stackSize
        deckSize endGameLength discardValue suitValue currentClues
      = Returned (Some rounded)
      /\ (inject_Z rounded <= value)%Q
      /\ (value < inject_Z (rounded + 1))%Q
      /\ (forall a b c,
             discardValue = inject_Z a -> suitValue = inject_Z b ->
             currentClues = inject_Z c ->
             (inject_Z rounded == value)%Q).
Proof.
  intros score sps msps stackSize d e dv sv cc v Hret.
  exists (Qfloor v).
  split; [unfold getCluesStillUsable; now rewrite Hret |].
  split; [apply Qfloor_le |].
  split; [apply Qlt_floor |].
  intros a b c -> -> ->.
  apply getCluesStillUsableNotRounded_returned in Hret.
  destruct Hret as (_ & ->).
  set (D := getMaxDiscardsBeforeFinalRound _ _ _).
  set (k := completeSuits _ _ 0 0).
  assert (Hint :
            (inject_Z D * inject_Z a
             + (if Qltb 0 (inject_Z b) then inject_Z k * inject_Z b else 0)
             + inject_Z c
             == inject_Z (D * a
                          + (if Qltb 0 (inject_Z b) then k * b else 0)
                          + c))%Q).
  { destruct (Qltb 0 (inject_Z b));
      rewrite !inject_Z_plus, !inject_Z_mult; reflexivity. }
  rewrite (Qfloor_comp _ _ Hint), Qfloor_Z. symmetry. exact Hint.
Qed.

Lemma getCluesStillUsable_rounding_witness :
  getCluesStillUsableNotRounded 4 [4; 0] [5; 5] 5 10 2 1 1 8
  = Returned (Some 15%Q)
  /\ exists rounded,
      getCluesStillUsable 4 [4; 0] [5; 5] 5 10 2 1 1 8
      = Returned (Some rounded)
      /\ (inject_Z rounded <= 15)%Q
      /\ (15 < inject_Z (rounded + 1))%Q
      /\ (forall a b c,
             1%Q = inject_Z a -> 1%Q = inject_Z b -> 8%Q = inject_Z c ->
             (inject_Z rounded == 15)%Q).
Proof.
  split; [reflexivity |].
  apply (getCluesStillUsable_rounding 4 [4; 0] [5; 5] 5 10 2 1 1 8 15).
  reflexivity.
Defined.

End CluesLaws.

(** ** Laws of the start of a game *)

Module StartLaws.
Import Game Pace Stats Clues Start CluesFacts.

Lemma sumArray_from (xs : list Z) (acc : Z) :
  fold_left Z.add xs acc = acc + fold_left Z.add xs 0.
Proof.
  revert acc. induction xs as [| x xs IH]; intros acc; cbn; [lia |].
  rewrite (IH (acc + x)), (IH x). lia.
Qed.

Lemma sumArray_newArray (n : nat) (value : Z) :
  sumArray (newArray n value) = Z.of_nat n * value.
Proof.
  unfold sumArray, newArray.
  induction n as [| n IH]; [reflexivity |].
  cbn [repeat fold_left]. rewrite sumArray_from, IH. lia.
Qed.

Lemma specCandidates_newArray (n : nat) (stackSize : Z) :
  specCandidates (newArray n 0) (newArray n stackSize) stackSize
  = if 0 <? stackSize then newArray n stackSize else [].
Proof.
  unfold specCandidates, newArray.
  induction n as [| n IH]; cbn [repeat combine filter map].
  - now destruct (0 <? stackSize).
  - rewrite Z.eqb_refl. cbn [andb].
    destruct (0 <? stackSize); cbn [map]; rewrite IH.
    + now rewrite Z.sub_0_r.
    + reflexivity.
Qed.

Lemma sortBy_newArray (n : nat) (value : Z) :
  sortBy (fun a b => a - b) (newArray n value) = newArray n value.
Proof.
  unfold newArray. induction n as [| n IH]; [reflexivity |].
  cbn [repeat sortBy fold_right]. fold (sortBy (fun a b => a - b)).
  change (fold_right (insertBy (fun a b => a - b)) [] (repeat value n))
    with (sortBy (fun a b => a - b) (repeat value n)).
  rewrite IH. destruct n as [| n]; [reflexivity |].
  cbn [repeat insertBy].
  replace (value - value <=? 0) with true; [reflexivity |].
  symmetry. apply Z.leb_le. lia.
Qed.

(** Equal suits: as many as the budget pays for. *)
Lemma completeSuits_newArray (budget stackSize : Z) :
  0 < stackSize ->
  forall (n : nat) (cardsPlayed suitsCompleted : Z),
    cardsPlayed <= budget ->
    completeSuits budget (newArray n stackSize) cardsPlayed suitsCompleted
    = suitsCompleted
      + Z.min (Z.of_nat n) ((budget - cardsPlayed) / stackSize).
Proof.
  intros Hs. unfold newArray.
  induction n as [| n IH]; intros c k Hc.
  - cbn [repeat completeSuits].
    assert (0 <= (budget - c) / stackSize) by (apply Z.div_pos; lia).
    lia.
  - cbn [repeat completeSuits].
    destruct (Z.gtb_spec (c + stackSize) budget) as [Hover | Hfits].
    + rewrite (Z.div_small (budget - c) stackSize) by lia. lia.
    + rewrite IH by lia.
      replace (budget - (c + stackSize))
        with (budget - c + (-1) * stackSize) by lia.
      rewrite Z.div_add by lia. lia.
Qed.

Section WithStartRules.

Context {Suit : Type} {startRules : StartRules Suit}.

(** The pace at the start: with a card left in the deck after the hands
    are dealt, [getPace] at score 0 is [getStartingPace], which is the
    total of the cards, plus the turns of the final round, minus the cards
    dealt, minus the maximum score. *)
Theorem getPace_at_start :
  forall numPlayers cardsPerHand (variant : GameVariant Suit) maxScore
         endGameLength,
    0 < getStartingDeckSize numPlayers cardsPerHand variant ->
    getPace 0 (getStartingDeckSize numPlayers cardsPerHand variant) maxScore
      endGameLength false
    = Some (getStartingPace
              (getStartingDeckSize numPlayers cardsPerHand variant)
              maxScore endGameLength)
    /\ getStartingPace (getStartingDeckSize numPlayers cardsPerHand variant)
         maxScore endGameLength
       = getTotalCardsInDeck variant + endGameLength
         - cardsPerHand * numPlayers - maxScore.
Proof.
  intros n cph variant m e Hdeck.
  unfold getPace, getStartingPace.
  destruct (Z.leb_spec (getStartingDeckSize n cph variant) 0); [lia |].
  split; [f_equal; lia |].
  unfold getStartingDeckSize. lia.
Qed.

(** [getStartingCluesUsable] never fails on the lengths of its arrays; it
    fails on a variant whose discards are worth less than its suits, and
    else on a deck without cards; otherwise it returns. *)
Theorem getStartingCluesUsable_outcome :
  forall endGameLength deckSize (variant : GameVariant Suit),
    getStartingCluesUsable endGameLength deckSize variant
    <> Thrown "Failed to calculate efficiency: scorePerStack must have the same length as maxScorePerStack."%string
    /\ ((discardValue variant < suitValue variant)%Q ->
        getStartingCluesUsable endGameLength deckSize variant
        = Thrown "Cannot calculate efficiency in variants where discarding gives fewer clues than completing suits."%string)
    /\ (~ (discardValue variant < suitValue variant)%Q ->
        deckSize <= 0 ->
        getStartingCluesUsable endGameLength deckSize variant
        = Thrown "The starting clues usable was null."%string)
    /\ (~ (discardValue variant < suitValue variant)%Q ->
        0 < deckSize ->
        exists startingClues,
          getStartingCluesUsable endGameLength deckSize variant
          = Returned startingClues).
Proof.
  intros e d variant.
  unfold getStartingCluesUsable, getCluesStillUsable,
    getCluesStillUsableNotRounded, newArray.
  rewrite !repeat_length, Nat.eqb_refl. cbn [negb].
  destruct (Qltb (discardValue variant) (suitValue variant)) eqn:Hlt.
  - apply Qltb_spec in Hlt.
    split; [discriminate |]. split; [reflexivity |].
    split; intros Hn; contradiction.
  - apply Qltb_false in Hlt.
    destruct (Z.leb_spec d 0) as [Hempty | Hdeck].
    + split; [discriminate |]. split; [intros H; contradiction |].
      split; [reflexivity |]. intros _ H. lia.
    + split; [discriminate |]. split; [intros H; contradiction |].
      split; [intros _ H; lia |]. intros _ _. eexists. reflexivity.
Qed.

(** The clues usable from the start, in closed form: all suits need
    [stackSize] cards, so the suits completed before the final round are
    as many as the play budget pays for, and at most all of them. *)
Theorem getStartingCluesUsable_value :
  forall endGameLength deckSize (variant : GameVariant Suit),
    0 < deckSize ->
    ~ (discardValue variant < suitValue variant)%Q ->
    0 < stackSize variant ->
    getStartingCluesUsable endGameLength deckSize variant
    = Returned
        (Qfloor
           (inject_Z
              (getMaxDiscardsBeforeFinalRound
                 (Z.of_nat (length (suits variant)) * stackSize variant)
                 deckSize endGameLength)
            * discardValue variant
            + (if Qltb 0 (suitValue variant)
               then inject_Z
                      (Z.min (Z.of_nat (length (suits variant)))
                         (specPlayBudget
                            (Z.of_nat (length (suits variant))
                             * stackSize variant)
                            deckSize endGameLength
                          / stackSize variant))
                    * suitValue variant
               else 0)
            + inject_Z MAX_CLUE_NUM)%Q).
Proof.
  intros e d variant Hd Hsv Hs.
  unfold getStartingCluesUsable, getCluesStillUsable,
    getCluesStillUsableNotRounded.
  unfold newArray at 1 2. rewrite !repeat_length, Nat.eqb_refl.
  cbn [negb].
  apply Qltb_false in Hsv. rewrite Hsv.
  destruct (Z.leb_spec d 0); [lia |].
  cbv zeta.
  rewrite sumArray_newArray, Z.sub_0_r.
  rewrite missingCardsPerCompletableSuitOf_spec, specCandidates_newArray.
  apply Z.ltb_lt in Hs. rewrite Hs. apply Z.ltb_lt in Hs.
  rewrite sortBy_newArray.
  fold (specPlayBudget (Z.of_nat (length (suits variant))
                        * stackSize variant) d e).
  rewrite (completeSuits_newArray _ _ Hs)
    by now apply specPlayBudget_nonneg.
  rewrite Z.sub_0_r. cbn [Z.add]. reflexivity.
Qed.

End WithStartRules.

Lemma getPace_at_start_witness :
  0 < getStartingDeckSize (startRules := sampleStartRules) 2 5
        Sample.noVariant
  /\ getPace 0
       (getStartingDeckSize (startRules := sampleStartRules) 2 5
          Sample.noVariant)
       25 2 false
     = Some (getStartingPace
               (getStartingDeckSize (startRules := sampleStartRules) 2 5
                  Sample.noVariant)
               25 2)
  /\ getStartingPace
       (getStartingDeckSize (startRules := sampleStartRules) 2 5
          Sample.noVariant)
       25 2
     = getTotalCardsInDeck (StartRules := sampleStartRules) Sample.noVariant
       + 2 - 5 * 2 - 25.
Proof.
  split; [reflexivity |].
  apply (getPace_at_start (startRules := sampleStartRules)
           2 5 Sample.noVariant 25 2).
  reflexivity.
Defined.

Lemma getStartingCluesUsable_value_witness :
  getStartingCluesUsable (startRules := sampleStartRules) 2 40
    Sample.noVariant
  = Returned 29.
Proof.
  rewrite (getStartingCluesUsable_value (startRules := sampleStartRules)
             2 40 Sample.noVariant).
  - reflexivity.
  - reflexivity.
  - cbn. discriminate.
  - reflexivity.
Defined.

End StartLaws.

(** ** Further laws of the cards gotten, the notes and the double discard *)

Module StatsLaws.
Import Game Stats Start StatsFacts.

Lemma fold_count_bounds {A : Type} (f : Z -> A -> Z) :
  (forall n x, n <= f n x <= n + 1) ->
  forall (xs : list A) (acc : Z),
    acc <= fold_left f xs acc <= acc + Z.of_nat (length xs).
Proof.
  intros Hstep. induction xs as [| x xs IH]; intros acc.
  - cbn. lia.
  - cbn [fold_left length].
    specialize (IH (f acc x)). specialize (Hstep acc x). lia.
Qed.

Lemma index_range {A : Type} (xs : list A) (i : Z) (x : A) :
  index xs i = Some x -> 0 <= i < Z.of_nat (length xs).
Proof.
  unfold index. destruct (Z.ltb_spec i 0); [discriminate |].
  intros Hnth.
  assert (Hlt : (Z.to_nat i < length xs)%nat).
  { apply nth_error_Some. congruence. }
  lia.
Qed.

Lemma index_In {A : Type} (xs : list A) (i : Z) (x : A) :
  index xs i = Some x -> In x xs.
Proof.
  unfold index. destruct (i <? 0); [discriminate |].
  apply nth_error_In.
Qed.

Lemma index_firstn {A : Type} (xs : list A) (n : nat) (i : Z) :
  i < Z.of_nat n -> index (firstn n xs) i = index xs i.
Proof.
  intros Hi. unfold index. destruct (Z.ltb_spec i 0); [reflexivity |].
  rewrite nth_error_firstn.
  replace (Z.to_nat i <? n)%nat with true; [reflexivity |].
  symmetry. apply Nat.ltb_lt. lia.
Qed.

Lemma entriesFrom_range {A : Type} (xs : list A) :
  forall (k i : Z) (x : A),
    In (i, x) (entriesFrom k xs) -> k <= i < k + Z.of_nat (length xs).
Proof.
  induction xs as [| y xs IH]; intros k i x Hin; [contradiction |].
  cbn [entriesFrom length] in *. destruct Hin as [Heq | Hin].
  - injection Heq as <- _. lia.
  - apply IH in Hin. lia.
Qed.

Lemma sumZ_zero {A : Type} (f : A -> Z) (xs : list A) :
  (forall x, In x xs -> f x = 0) -> sumZ (map f xs) = 0.
Proof.
  induction xs as [| x xs IH]; intros Hall; [reflexivity |].
  cbn [map sumZ fold_right]. fold (sumZ (map f xs)).
  rewrite IH, (Hall x); [reflexivity | now left |].
  intros y Hy. apply Hall. now right.
Qed.

Section WithRules.

Context {Suit : Type} {rules : Rules Suit}.

(** [getCardsGotten] never counts more cards than the deck has, and with
    a maximum score that is not negative its result is not negative. *)
Theorem getCardsGotten_bounds :
  forall deck playStacks directions starts playing shadowing maxScore
         (variant : GameVariant Suit),
    getCardsGotten deck playStacks directions starts playing shadowing
      maxScore variant <= Z.of_nat (length deck)
    /\ (0 <= maxScore ->
        0 <= getCardsGotten deck playStacks directions starts playing
               shadowing maxScore variant).
Proof.
  intros deck playStacks directions starts playing shadowing maxScore variant.
  unfold getCardsGotten.
  match goal with
  | |- context [fold_left ?f deck 0] =>
      assert (Hb : 0 <= fold_left f deck 0 <= 0 + Z.of_nat (length deck))
  end.
  { apply fold_count_bounds. intros n c.
    destruct (isOnPlayStack c || _); [lia |].
    destruct (isCardInPlayerHand c && _ && _); lia. }
  cbv zeta.
  match goal with
  | |- context [?x >? maxScore] => destruct (Z.gtb_spec x maxScore)
  end; lia.
Qed.

(** Of [playing] and [shadowing] only the disjunction matters, and only
    in throw-it-in-a-hole variants; who neither plays nor shadows never
    sees more cards gotten. *)
Theorem getCardsGotten_playing_or_shadowing :
  forall deck playStacks directions starts playing shadowing maxScore
         (variant : GameVariant Suit),
    getCardsGotten deck playStacks directions starts playing shadowing
      maxScore variant
    = getCardsGotten deck playStacks directions starts
        (playing || shadowing) false maxScore variant
    /\ (throwItInAHole variant = false ->
        getCardsGotten deck playStacks directions starts playing shadowing
          maxScore variant
        = getCardsGotten deck playStacks directions starts false false
            maxScore variant)
    /\ getCardsGotten deck playStacks directions starts false false
         maxScore variant
       <= getCardsGotten deck playStacks directions starts playing
            shadowing maxScore variant.
Proof.
  intros deck playStacks directions starts playing shadowing maxScore variant.
  rewrite !getCardsGotten_count. unfold specCountedMisplays.
  rewrite orb_false_r.
  split; [reflexivity |]. split.
  - intros ->. reflexivity.
  - rewrite andb_false_r.
    destruct (throwItInAHole variant && (playing || shadowing));
      cbn [length]; lia.
Qed.

(** *** Notes *)

Lemma notedDelta_range (notes : list CardNote) (i : Z) (c : CardState) :
  (isCardClued c = true -> -1 <= notedDelta notes (i, c) <= 0)
  /\ (isCardClued c = false -> 0 <= notedDelta notes (i, c) <= 1).
Proof.
  unfold notedDelta. destruct (index notes i) as [note |]; [| lia].
  split; intros ->; cbn [andb negb].
  - destruct (unclued note || knownTrash note); lia.
  - destruct ((clued note || finessed note) && _ && _); lia.
Qed.

Lemma noted_sum_bounds (notes : list CardNote) (keep : CardState -> bool) :
  forall (xs : list CardState) (k : Z),
    - Z.of_nat (length (filter (fun c => keep c && isCardClued c) xs))
    <= sumZ (map (notedDelta notes)
               (filter (fun '(_, c) => keep c) (entriesFrom k xs)))
    <= Z.of_nat (length (filter (fun '(_, c) => keep c) (entriesFrom k xs)))
       - Z.of_nat (length (filter (fun c => keep c && isCardClued c) xs)).
Proof.
  induction xs as [| c xs IH]; intros k; [cbn; lia |].
  cbn [entriesFrom filter]. specialize (IH (k + 1)).
  destruct (keep c); cbn [andb]; [| exact IH].
  cbn [map length]. change (sumZ (?x :: ?l)) with (x + sumZ l).
  destruct (notedDelta_range notes k c) as (Hclued & Hnot).
  destruct (isCardClued c); cbn [length].
  - specialize (Hclued eq_refl). lia.
  - specialize (Hnot eq_refl). lia.
Qed.

(** The notes take away at most the cards that are really clued, and add
    at most the other cards that they are summed over. *)
Theorem getCardsGottenByNotes_bounds :
  forall deck playStacks directions starts (variant : GameVariant Suit) notes,
    - Z.of_nat (length (specCluedLiveCards deck playStacks directions starts
                          variant))
    <= getCardsGottenByNotes deck playStacks directions starts variant notes
    <= Z.of_nat (length (specNotedCards deck playStacks directions starts
                           variant))
       - Z.of_nat (length (specCluedLiveCards deck playStacks directions
                             starts variant)).
Proof.
  intros deck playStacks directions starts variant notes.
  set (keep := fun c : CardState =>
                 isCardInPlayerHand c
                 && negb (isAllCardPossibilitiesTrash c deck playStacks
                            directions starts variant false)).
  assert (Hloop := notes_loop notes keep (entries deck) 0).
  assert (Hb := noted_sum_bounds notes keep deck 0).
  assert (Hlive :
            specCluedLiveCards deck playStacks directions starts variant
            = filter (fun c => keep c && isCardClued c) deck).
  { unfold specCluedLiveCards. apply filter_ext. intros c. unfold keep.
    destruct (isCardInPlayerHand c); destruct (isCardClued c);
      destruct (isAllCardPossibilitiesTrash _ _ _ _ _ _ _); reflexivity. }
  rewrite Hlive. unfold getCardsGottenByNotes, specNotedCards.
  fold keep. unfold entries in *. subst keep. cbv beta in *.
  rewrite Hloop. lia.
Qed.

Lemma notedDelta_blank (notes : list CardNote) (entry : Z * CardState) :
  forallb isBlankNote notes = true -> notedDelta notes entry = 0.
Proof.
  intros Hblank. destruct entry as [i c]. unfold notedDelta.
  destruct (index notes i) as [note |] eqn:Hnote; [| reflexivity].
  apply index_In in Hnote.
  rewrite forallb_forall in Hblank. specialize (Hblank note Hnote).
  unfold isBlankNote in Hblank.
  repeat (apply andb_true_iff in Hblank; destruct Hblank as (Hblank & ?)).
  repeat match goal with
         | H : negb _ = true |- _ => apply negb_true_iff in H; rewrite H
         end.
  cbn. rewrite ?andb_false_r. reflexivity.
Qed.

(** Without notes, or with notes that carry none of the four flags, no
    card is gotten by notes. *)
Theorem getCardsGottenByNotes_blank :
  forall deck playStacks directions starts (variant : GameVariant Suit) notes,
    forallb isBlankNote notes = true ->
    getCardsGottenByNotes deck playStacks directions starts variant notes
    = 0.
Proof.
  intros deck playStacks directions starts variant notes Hblank.
  unfold getCardsGottenByNotes.
  rewrite (notes_loop notes
             (fun c => isCardInPlayerHand c
                       && negb (isAllCardPossibilitiesTrash c deck
                                  playStacks directions starts variant
                                  false))).
  rewrite sumZ_zero; [reflexivity |].
  intros entry _. now apply notedDelta_blank.
Qed.

(** Only the notes of the cards of the deck are read: the notes after
    them change nothing. *)
Theorem getCardsGottenByNotes_notes_of_deck :
  forall deck playStacks directions starts (variant : GameVariant Suit) notes,
    getCardsGottenByNotes deck playStacks directions starts variant notes
    = getCardsGottenByNotes deck playStacks directions starts variant
        (firstn (length deck) notes).
Proof.
  intros deck playStacks directions starts variant notes.
  unfold getCardsGottenByNotes.
  set (keep := fun c : CardState =>
                 isCardInPlayerHand c
                 && negb (isAllCardPossibilitiesTrash c deck playStacks
                            directions starts variant false)).
  rewrite (notes_loop notes keep), (notes_loop (firstn (length deck) notes) keep).
  f_equal. f_equal. apply map_ext_in. intros [i c] Hin.
  apply filter_In in Hin. destruct Hin as (Hin & _).
  apply entriesFrom_range in Hin.
  unfold notedDelta. rewrite index_firstn by lia. reflexivity.
Qed.

(** *** Double discards *)

(** A double discard is only reported for an order inside the deck, on a
    card whose suit is one of the suits of the variant. *)
Theorem getDoubleDiscardCard_in_range :
  forall orderOfDiscardedCard gameState (variant : GameVariant Suit),
    getDoubleDiscardCard orderOfDiscardedCard gameState variant <> None ->
    0 <= orderOfDiscardedCard < Z.of_nat (length (deck gameState))
    /\ exists cardDiscarded s,
        index (deck gameState) orderOfDiscardedCard = Some cardDiscarded
        /\ suitIndex cardDiscarded = Some s
        /\ 0 <= s < Z.of_nat (length (suits variant)).
Proof.
  intros o gs variant Hsome.
  destruct (getDoubleDiscardCard_shape o gs variant) as [E | E];
    [contradiction |].
  apply getDoubleDiscardCard_situation in E.
  destruct E as (_ & _ & card & s & r & suit & Hcard & Hs & _ & _ & _
                 & Hsuit & _).
  split; [now apply (index_range _ _ card) |].
  exists card, s. repeat split; try assumption;
    apply (index_range _ _ _ Hsuit).
Qed.

End WithRules.

Lemma getCardsGottenByNotes_blank_witness :
  forallb isBlankNote [mkCardNote false false false false] = true
  /\ getCardsGottenByNotes (rules := Sample.sampleRules) Sample.sampleDeck
       [] [] [] Sample.noVariant [mkCardNote false false false false]
     = 0.
Proof.
  split; [reflexivity |].
  apply (getCardsGottenByNotes_blank (rules := Sample.sampleRules)).
  reflexivity.
Defined.

Lemma getDoubleDiscardCard_in_range_witness :
  getDoubleDiscardCard (rules := Sample.sampleRules) 7
    (Sample.sampleState (Some 1)) Sample.noVariant <> None
  /\ 0 <= 7 < Z.of_nat (length (deck (Sample.sampleState (Some 1))))
  /\ exists cardDiscarded s,
      index (deck (Sample.sampleState (Some 1))) 7 = Some cardDiscarded
      /\ suitIndex cardDiscarded = Some s
      /\ 0 <= s < Z.of_nat (length (suits Sample.noVariant)).
Proof.
  assert (Hsome : getDoubleDiscardCard (rules := Sample.sampleRules) 7
                    (Sample.sampleState (Some 1)) Sample.noVariant <> None)
    by (vm_compute; discriminate).
  split; [exact Hsome |].
  exact (getDoubleDiscardCard_in_range (rules := Sample.sampleRules) 7
           (Sample.sampleState (Some 1)) Sample.noVariant Hsome).
Defined.

End StatsLaws.
